(** * Telecom churn notebook: feature engineering and the inference adapter

    Shallow embedding of [telecom_churn_analysis.ipynb]:
    cell 4 (load and preprocess), cell 6 (feature matrix), cell 8 (the
    train/evaluate loop) and the two inference functions
    [preprocess_input] and [predict_churn_for_client].

    The notebook is pandas code, so the embedding starts with a small model
    of the pandas operations it calls.  Floating point numbers are idealised
    as exact rationals extended with NaN and the two infinities; the
    rounding of the arithmetic on columns is not modelled.  The product
    taken when the probability is printed is rounded to float64, since the
    printed digits depend on it. *)

From Stdlib Require Import String Ascii ZArith QArith Qcanon Qround Qabs List DecimalString.
From Stdlib Require Import OrderedTypeEx Lqa Qpower.
From stdpp Require Import base numbers strings option list sorting.
Import ListNotations.
Open Scope string_scope.

(** ** Scalars *)

(** One cell of a table.  [NaN] is [np.nan], the missing value; [Num] is a
    finite [int64]/[float64]; [Inf] is a signed infinity; [Str] is a Python
    [str] of an object column. *)
Inductive cell :=
| NaN
| Num (q : Qc)
| Inf (neg : bool)
| Str (s : string).

#[global] Instance cell_eq_dec : EqDecision cell.
Proof. solve_decision. Defined.

Definition zero : cell := Num 0%Qc.
Definition one : cell := Num 1%Qc.

(** Python's [==] on scalars: NaN is equal to nothing, itself included. *)
Definition py_eq (a b : cell) : bool :=
  match a with
  | NaN => false
  | _ => bool_decide (a = b)
  end.

(** ** Exceptions *)

Inductive exn :=
| KeyError (label : string)   (* a column label that the frame does not have *)
| TypeError                   (* arithmetic on a [str] *)
| IndexError                  (* position outside an array *)
| LibraryError (msg : string) (* raised inside scikit-learn *)
| BadRef.                     (* an address outside the object store; no Python program reaches it *)

Inductive result (A : Type) :=
| Ok (a : A)
| Raise (e : exn).
Arguments Ok {A} a.
Arguments Raise {A} e.

Definition result_bind {A B} (r : result A) (k : A → result B) : result B :=
  match r with
  | Ok a => k a
  | Raise e => Raise e
  end.

Fixpoint result_all {A} (rs : list (result A)) : result (list A) :=
  match rs with
  | [] => Ok []
  | r :: rs' =>
      result_bind r (λ a, result_bind (result_all rs') (λ l, Ok (a :: l)))
  end.

(** ** Series *)

Abbreviation Series := (list cell).

(** [s.fillna(v)] *)
Definition fillna (v : cell) (s : Series) : Series :=
  map (λ c, match c with NaN => v | _ => c end) s.

(** [s.replace(old, new)] *)
Definition replace (old new : cell) (s : Series) : Series :=
  map (λ c, if py_eq c old then new else c) s.

(** [s.apply(f)] *)
Definition apply (f : cell → cell) (s : Series) : Series := map f s.

(** [a / b] on two cells of two columns.  A missing operand gives NaN,
    whatever the other one is (pandas divides the pairs without a missing
    value only); then a [str] operand raises; numbers divide with numpy's
    values at zero and infinity (signed zeros apart). *)
Definition truediv (a b : cell) : result cell :=
  match a, b with
  | NaN, _ | _, NaN => Ok NaN
  | Str _, _ | _, Str _ => Raise TypeError
  | Num x, Num y =>
      if bool_decide (y = 0%Qc) then
        if bool_decide (x = 0%Qc) then Ok NaN
        else Ok (Inf (bool_decide (x < 0)%Qc))
      else Ok (Num (x / y)%Qc)
  | Num _, Inf _ => Ok zero
  | Inf s, Num y => Ok (Inf (xorb s (bool_decide (y < 0)%Qc)))
  | Inf _, Inf _ => Ok NaN
  end.

(** [a / b] on two columns of one frame, element by element. *)
Definition series_truediv (a b : Series) : result Series :=
  result_all (zip_with truediv a b).

(** [s.map(d)] with a dict [d]: a value that is no key of [d] becomes NaN. *)
Definition dict_get (d : list (cell * cell)) (k : cell) : option cell :=
  snd <$> find (λ kv, py_eq k (fst kv)) d.

Definition series_map (d : list (cell * cell)) (s : Series) : Series :=
  map (λ c, default NaN (dict_get d c)) s.

(** ** Frames *)

(** A DataFrame: the number of rows (its index) and the columns in order.
    Frames built from records or read from a file have pairwise distinct
    labels; [columns] is a list because the order of the columns is
    observable. *)
Record DataFrame := mkDF {
  nrows : nat;
  columns : list (string * Series)
}.

Definition labels (df : DataFrame) : list string := map fst (columns df).

(** [c in df.columns] *)
Definition has_column (df : DataFrame) (c : string) : bool :=
  bool_decide (c ∈ labels df).

(** [df[c]] *)
Definition get_col (df : DataFrame) (c : string) : option Series :=
  snd <$> find (λ kv, String.eqb (fst kv) c) (columns df).

(** [df[c] = s]: an existing column keeps its place, a new one goes last. *)
Definition set_col (df : DataFrame) (c : string) (s : Series) : DataFrame :=
  if has_column df c then
    mkDF (nrows df)
         (map (λ kv, if String.eqb (fst kv) c then (fst kv, s) else kv) (columns df))
  else mkDF (nrows df) (columns df ++ [(c, s)]).

(** [df.drop(cs, axis=1)]: every label of [cs] has to exist.  (The
    KeyError of a list of labels carries the first absent label here;
    pandas names all of them in its message.) *)
Definition drop (df : DataFrame) (cs : list string) : result DataFrame :=
  match find (λ c, negb (has_column df c)) cs with
  | Some c => Raise (KeyError c)
  | None =>
      Ok (mkDF (nrows df)
               (filter (λ kv, fst kv ∉ cs) (columns df)))
  end.

(** [df[cs]] with a list of labels: the columns carrying each label, in the
    order of [cs]. *)
Definition select (df : DataFrame) (cs : list string) : result DataFrame :=
  match find (λ c, negb (has_column df c)) cs with
  | Some c => Raise (KeyError c)
  | None =>
      Ok (mkDF (nrows df)
               (flat_map (λ c, filter (λ kv, fst kv = c) (columns df)) cs))
  end.

(** Row [i] of a frame as a one-row frame, [df.iloc[[i]]]. *)
Definition iloc_row (df : DataFrame) (i : nat) : DataFrame :=
  mkDF 1 (map (λ kv, (fst kv, take 1 (List.skipn i (snd kv)))) (columns df)).

(** The value of column [c] in row [i]. *)
Definition at_ (df : DataFrame) (i : nat) (c : string) : option cell :=
  s ← get_col df c; s !! i.

(** ** Levels of a column *)

(** The order in which [factorize(sort=True)] lists the levels of a column:
    numbers by value and before every [str], strings by code point. *)
Definition level_leb (a b : cell) : bool :=
  match a, b with
  | Str x, Str y => String.leb x y
  | Str _, _ => false
  | _, Str _ => true
  | Inf true, _ => true
  | _, Inf true => false
  | _, Inf false => true
  | Inf false, _ => false
  | Num x, Num y => bool_decide (x ≤ y)%Qc
  | NaN, _ => true
  | _, NaN => false
  end.

Fixpoint insert_level (v : cell) (ls : list cell) : list cell :=
  match ls with
  | [] => [v]
  | l :: ls' =>
      if bool_decide (v = l) then ls
      else if level_leb v l then v :: ls
      else l :: insert_level v ls'
  end.

(** The distinct values of a column other than NaN, sorted. *)
Definition levels_of (s : Series) : list cell :=
  fold_left (λ acc v, match v with NaN => acc | _ => insert_level v acc end) s [].

(** ** The object store

    pandas frames are mutable objects and the notebook both updates frames
    in place and rebinds names to new frames.  The store holds the frames;
    a Python variable holds an address. *)

Abbreviation ref := nat.
Abbreviation heap := (list DataFrame).

(** A computation over a state [S] that returns or raises.  The state at
    the time of the raise is kept. *)
Definition M (S A : Type) : Type := S → result A * S.

Definition ret {S A} (a : A) : M S A := λ σ, (Ok a, σ).
Definition raise {S A} (e : exn) : M S A := λ σ, (Raise e, σ).
Definition bind {S A B} (m : M S A) (k : A → M S B) : M S B :=
  λ σ, match m σ with
       | (Ok a, σ') => k a σ'
       | (Raise e, σ') => (Raise e, σ')
       end.
Definition lift {S A} (r : result A) : M S A := λ σ, (r, σ).

#[global] Instance M_ret {S} : MRet (M S) := λ A, ret.
#[global] Instance M_bind {S} : MBind (M S) := λ A B k m, bind m k.

(** [for x in xs: body(x)] *)
Fixpoint for_each {S A} (xs : list A) (body : A → M S unit) : M S unit :=
  match xs with
  | [] => ret tt
  | x :: xs' => body x;; for_each xs' body
  end.

Definition deref (r : ref) : M heap DataFrame :=
  λ σ, match σ !! r with
       | Some df => (Ok df, σ)
       | None => (Raise BadRef, σ)
       end.

Definition store (r : ref) (df : DataFrame) : M heap unit :=
  λ σ, (Ok tt, <[r := df]> σ).

Definition alloc (df : DataFrame) : M heap ref :=
  λ σ, (Ok (List.length σ), (σ ++ [df])%list).

(** [r[c]] *)
Definition getitem (r : ref) (c : string) : M heap Series :=
  df ← deref r;
  match get_col df c with
  | Some s => ret s
  | None => raise (KeyError c)
  end.

(** [r[c] = s] *)
Definition setitem (r : ref) (c : string) (s : Series) : M heap unit :=
  df ← deref r;
  store r (set_col df c s).

(** [r[c] = v] with a scalar [v], broadcast over the rows *)
Definition setitem_scalar (r : ref) (c : string) (v : cell) : M heap unit :=
  df ← deref r;
  store r (set_col df c (repeat v (nrows df))).

(** [r[c].fillna(v, inplace=True)]: the column of the frame itself is
    filled (pandas before copy-on-write, the notebook's Python 3.8). *)
Definition fillna_inplace (r : ref) (c : string) (v : cell) : M heap unit :=
  s ← getitem r c;
  setitem r c (fillna v s).

(** [r.copy()] *)
Definition copy (r : ref) : M heap ref :=
  df ← deref r;
  alloc df.

(** [r[cs]], a new frame *)
Definition getitem_list (r : ref) (cs : list string) : M heap ref :=
  df ← deref r;
  df' ← lift (select df cs);
  alloc df'.

(** [r.drop(cs, axis=1)], a new frame *)
Definition pd_drop (r : ref) (cs : list string) : M heap ref :=
  df ← deref r;
  df' ← lift (drop df cs);
  alloc df'.

(** ** Estimators *)

(** What the notebook uses of a scikit-learn classifier.  [fit] returns the
    fitted estimator (Python fits the object in place); [predict_proba]
    returns one row of class probabilities per input row. *)
Class Estimator (E : Type) := {
  fit : E → DataFrame → Series → result E;
  predict : E → DataFrame → result Series;
  has_predict_proba : E → bool;
  predict_proba : E → DataFrame → result (list (list Qc))
}.

(** [a[:, j]] on a two-dimensional array *)
Definition column_of (j : nat) (a : list (list Qc)) : result (list Qc) :=
  result_all (map (λ row, match row !! j with
                          | Some x => Ok x
                          | None => Raise IndexError
                          end) a).

(** [a[i]] on a one-dimensional array *)
Definition item (i : nat) (a : list Qc) : result Qc :=
  match a !! i with
  | Some x => Ok x
  | None => Raise IndexError
  end.

(** Rounding to the nearest integer, ties to the even one. *)
Definition round_half_even (q : Qc) : Z :=
  let f := Qfloor q in
  match (q - Qc_of_Z f ?= Q2Qc (1 # 2))%Qc with
  | Lt => f
  | Gt => (f + 1)%Z
  | Eq => if Z.even f then f else (f + 1)%Z
  end.

Definition decimal (n : Z) : string :=
  NilZero.string_of_uint (N.to_uint (Z.to_N n)).

(** The float64 nearest to a rational [q ≥ 0], ties to the even
    significand: 53 bits of significand, the last of them of weight [2^e]
    with [e] at least -1074.  [None] when the rounded value is past the
    largest finite double. *)
Definition nearest_double (q : Q) : option Q :=
  let N := Qfloor (q * 2 ^ 1074) in
  let e := Z.max (Z.log2 N - 1126) (-1074) in
  let x := (inject_Z (round_half_even (Q2Qc (q / 2 ^ e))) * 2 ^ e)%Q in
  if Qle_bool (2 ^ 1024) x then None else Some x.

(** [f"{p:.2%}"]: [p] as a percentage with two decimals.  The float is
    first multiplied by 100, in float64, and that product is then printed
    with two decimals, correctly rounded with ties to even. *)
Definition format_percent (p : Qc) : string :=
  (if bool_decide (p < 0)%Qc then "-" else "") ++
  match nearest_double (100 * Qabs p) with
  | Some x =>
      let n := round_half_even (Q2Qc (100 * x)) in
      decimal (n / 100) ++ "." ++
      (if (n mod 100 <? 10)%Z then "0" else "") ++ decimal (n mod 100) ++ "%"
  | None => "inf%"
  end.

(** [model.predict_proba(new_client)[:, 1][0]], the probability that
    [predict_churn_for_client] reports for an aligned row. *)
Definition churn_probability `{Estimator E} (model : E) (new_client : DataFrame)
  : result Qc :=
  result_bind (predict_proba model new_client) (λ proba,
  result_bind (column_of 1 proba) (λ positive,
  item 0 positive)).

(** ** One-hot encoding *)

Section Pandas.

(** [str(level)] for a level that is a number.  Python prints an [int] and
    a [float] of the same value differently, which a rational does not
    record, so the text is left open.  It is used only when a column given
    to [get_dummies] holds numbers. *)
Variable num_str : cell → string.

Definition level_str (l : cell) : string :=
  match l with
  | Str s => s
  | _ => num_str l
  end.

(** [_get_dummies_1d(data, prefix, drop_first=True)]: one 0/1 column per
    level but the first.  No column at all when every value is NaN or when
    there is one level only.  (Indicator cells are 0/1 as in pandas 1.x; the
    booleans of pandas 2 compare equal to them.) *)
Definition get_dummies_1d (pfx : string) (data : Series) : list (string * Series) :=
  match levels_of data with
  | [] => []
  | [_] => []
  | _ :: rest =>
      map (λ l, (pfx ++ "_" ++ level_str l,
                 map (λ v, if py_eq v l then one else zero) data)) rest
  end.

(** [pd.get_dummies(df, columns=cs, drop_first=True)]: the columns that are
    not encoded, in their order, then the indicator columns of each encoded
    column. *)
Definition get_dummies (df : DataFrame) (cs : list string) : result DataFrame :=
  result_bind (select df cs) (λ enc,
  result_bind (drop df (labels enc)) (λ rest,
  Ok (mkDF (nrows df)
           (columns rest ++
            flat_map (λ kv, get_dummies_1d (fst kv) (snd kv)) (columns enc))))).

(** [pd.get_dummies(r, columns=cs, drop_first=True)], a new frame *)
Definition pd_get_dummies (r : ref) (cs : list string) : M heap ref :=
  df ← deref r;
  df' ← lift (get_dummies df cs);
  alloc df'.

(** ** The notebook *)

(** [lambda x: 1 if x == 'month-to-month' else 0] *)
Definition short_contract (x : cell) : cell :=
  if py_eq x (Str "month-to-month") then one else zero.

(** [{'No': 0, 'Yes': 1}] *)
Definition churn_codes : list (cell * cell) :=
  [(Str "No", zero); (Str "Yes", one)].

(** Cell 4, after [df = pd.read_csv(...)]: [df] is the address of the frame
    that was read.  The result is the address the name [df] is bound to at
    the end of the cell. *)
Definition load_and_preprocess (df : ref) : M heap ref :=
  fillna_inplace df "internet_service" (Str "unknown");;
  total_charges ← getitem df "total_charges";
  tenure ← getitem df "tenure";
  avg ← lift (series_truediv total_charges (replace zero NaN tenure));
  setitem df "avg_monthly_charge" avg;;
  contract_type ← getitem df "contract_type";
  setitem df "is_short_contract" (apply short_contract contract_type);;
  df ← pd_get_dummies df ["contract_type"; "internet_service"];
  churn ← getitem df "churn";
  setitem df "churn" (series_map churn_codes churn);;
  ret df.

(** Cell 6, first line: [X = df.drop(['customer_id', 'churn'], axis=1)]. *)
Definition feature_matrix (df : ref) : M heap ref :=
  pd_drop df ["customer_id"; "churn"].

(** [list(X.columns)] *)
Definition column_list (X : ref) : M heap (list string) :=
  df ← deref X;
  ret (labels df).

(** [preprocess_input(new_client, reference_columns)] *)
Definition preprocess_input (new_client : ref) (reference_columns : list string)
  : M heap ref :=
  fillna_inplace new_client "internet_service" (Str "unknown");;
  total_charges ← getitem new_client "total_charges";
  tenure ← getitem new_client "tenure";
  avg ← lift (series_truediv total_charges (replace zero NaN tenure));
  setitem new_client "avg_monthly_charge" avg;;
  contract_type ← getitem new_client "contract_type";
  setitem new_client "is_short_contract" (apply short_contract contract_type);;
  new_client ← pd_get_dummies new_client ["contract_type"; "internet_service"];
  for_each reference_columns (λ col,
    df ← deref new_client;
    if negb (has_column df col) then setitem_scalar new_client col zero
    else ret tt);;
  getitem_list new_client reference_columns.

(** [predict_churn_for_client(model, new_client_raw, reference_columns)] *)
Definition predict_churn_for_client `{Estimator E} (model : E)
    (new_client_raw : ref) (reference_columns : list string) : M heap string :=
  raw_copy ← copy new_client_raw;
  new_client ← preprocess_input raw_copy reference_columns;
  features ← deref new_client;
  proba ← lift (predict_proba model features);
  positive ← lift (column_of 1 proba);
  prob ← lift (item 0 positive);
  ret ("Customer Churn Probability: " ++ format_percent prob).

(** The aligned feature row of a raw record: the frame that
    [predict_churn_for_client] hands to the model, i.e. the value of
    [preprocess_input(new_client_raw.copy(), reference_columns)]. *)
Definition aligned_row (new_client_raw : ref) (reference_columns : list string)
  : M heap DataFrame :=
  raw_copy ← copy new_client_raw;
  new_client ← preprocess_input raw_copy reference_columns;
  deref new_client.

End Pandas.

(** ** The train/evaluate loop (cell 8) *)

(** The split data of cell 6. *)
Record dataset := {
  X_train : DataFrame; y_train : Series;
  X_test : DataFrame;  y_test : Series;
  X_resampled : DataFrame; y_resampled : Series
}.

(** The metric functions of scikit-learn, each with the text that [print]
    shows for its value. *)
Class Metrics (E : Type) := {
  confusion_matrix : Series → Series → result string;
  classification_report : Series → Series → result string;
  roc_auc_score : Series → list Qc → result string;
  cross_val_score : E → DataFrame → Series → result (string * string)
}.

(** The state of the loop: the dict [models] and what was printed. *)
Record session (E : Type) := mkSession {
  models : list (string * E);
  stdout : list string
}.
Arguments mkSession {E} models stdout.
Arguments models {E} s.
Arguments stdout {E} s.

Definition print {E} (line : string) : M (session E) unit :=
  λ st, (Ok tt, mkSession (models st) (stdout st ++ [line])).

(** The estimator object named [name] is now the fitted one. *)
Definition set_model {E} (name : string) (model : E) : M (session E) unit :=
  λ st, (Ok tt,
         mkSession (map (λ kv, if String.eqb (fst kv) name then (name, model) else kv)
                        (models st))
                   (stdout st)).

Definition nl : string := String "010"%char "".

(** [f"\n\n===== {name} ====="] *)
Definition banner (name : string) : string :=
  nl ++ nl ++ "===== " ++ name ++ " =====".

(** The body of the loop for one entry of [models] (the pictographs of the
    printed captions are left out). *)
Definition evaluate `{Estimator E} `{Metrics E} (d : dataset)
    (entry : string * E) : M (session E) unit :=
  let '(name, model) := entry in
  print (banner name);;
  model ← lift (fit model (X_train d) (y_train d));
  set_model name model;;
  y_pred ← lift (predict model (X_test d));
  print "Confusion Matrix:";;
  cm ← lift (confusion_matrix (y_test d) y_pred);
  print cm;;
  print (nl ++ "Classification Report:");;
  report ← lift (classification_report (y_test d) y_pred);
  print report;;
  (if has_predict_proba model then
     proba ← lift (predict_proba model (X_test d));
     positive ← lift (column_of 1 proba);
     roc_auc ← lift (roc_auc_score (y_test d) positive);
     print ("ROC AUC Score: " ++ roc_auc)
   else ret tt);;
  scores ← lift (cross_val_score model (X_resampled d) (y_resampled d));
  print ("Cross-validated F1 scores: " ++ scores.1);;
  print ("Average F1 score: " ++ scores.2).

(** [for name, model in models.items(): ...] *)
Definition train_and_evaluate `{Estimator E} `{Metrics E} (d : dataset)
  : M (session E) unit :=
  λ st, for_each (models st) (evaluate d) st.

(** ** The importance chart (cell 10) *)

(** The attribute [feature_importances_] of a forest; reading it from an
    estimator that is not fitted raises. *)
Class Importances (E : Type) := {
  feature_importances_ : E → result (list Qc)
}.

(** [d[name]] on a dict *)
Definition dict_item {E} (name : string) (d : list (string * E)) : result E :=
  match find (λ kv, String.eqb (fst kv) name) d with
  | Some kv => Ok (snd kv)
  | None => Raise (KeyError name)
  end.

(** [np.argsort(a)]: the positions of [a], by ascending value.  numpy does
    not fix the order of positions that hold equal values; here they keep
    the order of a merge sort. *)
Definition by_value (a : list Qc) (i j : nat) : Prop :=
  (default 0 (a !! i) ≤ default 0 (a !! j))%Qc.

#[global] Instance by_value_dec a : RelDecision (by_value a).
Proof. intros i j. unfold by_value. apply _. Defined.

Definition argsort (a : list Qc) : list nat :=
  merge_sort (by_value a) (seq 0 (List.length a)).

(** [a[indices]] with an array of positions *)
Definition take_at {A} (a : list A) (indices : list nat) : result (list A) :=
  result_all (map (λ i, match a !! i with
                        | Some x => Ok x
                        | None => Raise IndexError
                        end) indices).

(** Cell 10 up to the call of [sns.barplot(x=importances[indices],
    y=features[indices])]: the two arguments, where [models] is the dict of
    cell 8 and [X] the feature matrix of cell 6. *)
Definition importance_bars `{Importances E} (models : list (string * E))
    (X : DataFrame) : result (list Qc * list string) :=
  result_bind (dict_item "Random Forest" models) (λ rf_model,
  result_bind (feature_importances_ rf_model) (λ importances,
  let features := labels X in
  let indices := rev (argsort importances) in
  result_bind (take_at importances indices) (λ x,
  result_bind (take_at features indices) (λ y,
  Ok (x, y))))).

(** ** Closed forms

    What the two preprocessing paths compute, as functions of the frame they
    are given.  They are tied to the notebook's code by the run lemmas
    below. *)

Section ClosedForms.
Variable num_str : cell → string.

(** [df[c]] or KeyError *)
Definition col (df : DataFrame) (c : string) : result Series :=
  match get_col df c with
  | Some s => Ok s
  | None => Raise (KeyError c)
  end.

(** The frame that the first three statements of either path leave at the
    address they were given. *)
Definition engineer (df : DataFrame) : result DataFrame :=
  result_bind (col df "internet_service") (λ internet_service,
  let df1 := set_col df "internet_service" (fillna (Str "unknown") internet_service) in
  result_bind (col df1 "total_charges") (λ total_charges,
  result_bind (col df1 "tenure") (λ tenure,
  result_bind (series_truediv total_charges (replace zero NaN tenure)) (λ avg,
  let df2 := set_col df1 "avg_monthly_charge" avg in
  result_bind (col df2 "contract_type") (λ contract_type,
  Ok (set_col df2 "is_short_contract" (apply short_contract contract_type))))))).

Definition encoded : list string := ["contract_type"; "internet_service"].

(** The frame after the loop over [reference_columns]. *)
Definition fill_missing (reference_columns : list string) (df : DataFrame) : DataFrame :=
  fold_left (λ d c, if negb (has_column d c)
                    then set_col d c (repeat zero (nrows d)) else d)
            reference_columns df.

(** The frame that [preprocess_input] returns. *)
Definition aligned (df : DataFrame) (reference_columns : list string) : result DataFrame :=
  result_bind (engineer df) (λ df3,
  result_bind (get_dummies num_str df3 encoded) (λ df4,
  select (fill_missing reference_columns df4) reference_columns)).

(** The frame that cell 4 leaves in [df]. *)
Definition trained (df : DataFrame) : result DataFrame :=
  result_bind (engineer df) (λ df3,
  result_bind (get_dummies num_str df3 encoded) (λ df4,
  result_bind (col df4 "churn") (λ churn,
  Ok (set_col df4 "churn" (series_map churn_codes churn))))).

End ClosedForms.

(** Every column has one cell per row. *)
Definition wf (df : DataFrame) : Prop :=
  Forall (λ kv, List.length (snd kv) = nrows df) (columns df).

(** A numeric column: no cell is a [str]. *)
Definition is_number (c : cell) : bool :=
  match c with
  | Str _ => false
  | _ => true
  end.

Definition numeric (s : Series) : bool := forallb is_number s.

(** The frame that [engineer] builds from the raw columns. *)
Definition engineered (df : DataFrame) (isv avg ct : Series) : DataFrame :=
  set_col (set_col (set_col df "internet_service" (fillna (Str "unknown") isv))
                   "avg_monthly_charge" avg)
          "is_short_contract" (apply short_contract ct).

(** The raw columns a record has to have, in the order in which both paths
    first read them. *)
Definition required : list string :=
  ["internet_service"; "total_charges"; "tenure"; "contract_type"].

(** The numeric fields that are present hold numbers. *)
Definition numeric_field (df : DataFrame) (c : string) : bool :=
  match get_col df c with
  | Some s => numeric s
  | None => true
  end.

Definition numeric_fields (df : DataFrame) : bool :=
  numeric_field df "total_charges" && numeric_field df "tenure".

(** ** What the claims say

    The rules that the theorems below establish, row by row. *)

(** The four raw columns of a table, with numbers in the numeric ones. *)
Definition raw_columns (df : DataFrame) (isv tc tn ct : Series) : Prop :=
  get_col df "internet_service" = Some isv ∧
  get_col df "total_charges" = Some tc ∧
  get_col df "tenure" = Some tn ∧
  get_col df "contract_type" = Some ct ∧
  numeric tc = true ∧ numeric tn = true.

(** Row by row: a tenure of 0 gives a missing average, a positive tenure
    gives the quotient. *)
Definition avg_rule (tc tn avg : Series) : Prop :=
  ∀ i total t, tc !! i = Some total → tn !! i = Some t →
    (t = zero → avg !! i = Some NaN) ∧
    (∀ q x, t = Num q → (0 < q)%Qc → total = Num x →
            avg !! i = Some (Num (x / q)%Qc)).

(** Row by row: the indicator is 0 or 1, and 1 exactly for the string
    month-to-month. *)
Definition short_rule (ct isc : Series) : Prop :=
  ∀ i x, ct !! i = Some x →
    ∃ v, isc !! i = Some v ∧ (v = zero ∨ v = one) ∧
         (v = one ↔ x = Str "month-to-month").

(** Row by row: No is 0, Yes is 1, anything else is missing. *)
Definition label_rule (churn codes : Series) : Prop :=
  ∀ i v, churn !! i = Some v →
    (v = Str "No" → codes !! i = Some zero) ∧
    (v = Str "Yes" → codes !! i = Some one) ∧
    (v ≠ Str "No" → v ≠ Str "Yes" → codes !! i = Some NaN).

(** The reading of the failure policy: when the fit of one entry of
    [models] raises, every other entry is still evaluated, so its banner is
    among the lines printed by the run. *)
Definition failure_isolated `{Estimator E} `{Metrics E} (d : dataset)
    (st : session E) : Prop :=
  ∀ name m, (name, m) ∈ models st →
    (∃ e, fit m (X_train d) (y_train d) = Raise e) →
    ∀ name' m', (name', m') ∈ models st → name' ≠ name →
      banner name' ∈ stdout (train_and_evaluate d st).2.

(** The missing-field error: KeyError with the label of a required column
    that the record lacks. *)
Definition missing_field_error (df : DataFrame) (outcome : result string) : Prop :=
  ∃ c, (c ∈ required) ∧ (c ∉ labels df) ∧ outcome = Raise (KeyError c).

(** The reading of the missing-field policy: every call on a record that
    lacks a required column ends with the missing-field error. *)
Definition missing_field_reported (num_str : cell → string) `{Estimator E}
    (model : E) (refs : list string) : Prop :=
  ∀ (σ : heap) r df c, σ !! r = Some df → c ∈ required → c ∉ labels df →
    missing_field_error df (predict_churn_for_client num_str model r refs σ).1.

(** ** The notebook's example *)

#[global] Instance DataFrame_eq_dec : EqDecision DataFrame.
Proof. solve_decision. Defined.
#[global] Instance exn_eq_dec : EqDecision exn.
Proof. solve_decision. Defined.
#[global] Instance result_eq_dec `{EqDecision A} : EqDecision (result A).
Proof. solve_decision. Defined.

(** [str] of a whole number.  The examples instantiate the open text of
    numeric levels with it; none of them encodes a numeric column. *)
Definition whole_str (c : cell) : string :=
  match c with
  | Num q => (if (Qnum q <? 0)%Z then "-" else "") ++ decimal (Z.abs (Qnum q))
  | Inf true => "-inf"
  | Inf false => "inf"
  | _ => "nan"
  end.

Definition int (z : Z) : cell := Num (Qc_of_Z z).

(** A training table with the three contract categories and, after the
    fill, the three internet categories. *)
Definition survey : DataFrame := mkDF 3
  [("customer_id", [Str "C001"; Str "C002"; Str "C003"]);
   ("tenure", [int 5; int 24; int 0]);
   ("total_charges", [int 250; int 1200; int 0]);
   ("contract_type", [Str "month-to-month"; Str "one-year"; Str "two-year"]);
   ("internet_service", [Str "fiber optic"; Str "dsl"; NaN]);
   ("churn", [Str "Yes"; Str "No"; Str "no"])].

(** The [new_client] of the last cell. *)
Definition new_client : DataFrame := mkDF 1
  [("tenure", [int 5]);
   ("total_charges", [int 250]);
   ("contract_type", [Str "month-to-month"]);
   ("internet_service", [Str "fiber optic"])].

(** A customer who has just signed. *)
Definition brand_new : DataFrame := mkDF 1
  [("tenure", [int 0]);
   ("total_charges", [int 70]);
   ("contract_type", [Str "two-year"]);
   ("internet_service", [NaN])].

(** A record without [contract_type]. *)
Definition no_contract : DataFrame := mkDF 1
  [("tenure", [int 5]);
   ("total_charges", [int 250]);
   ("internet_service", [Str "dsl"])].

(** A record without [contract_type] whose [total_charges] is text. *)
Definition text_charges : DataFrame := mkDF 1
  [("tenure", [int 5]);
   ("total_charges", [Str "250"]);
   ("internet_service", [Str "dsl"])].

(** Cells 4 and 6 up to [X], and the frame that [X] names. *)
Definition features_of (num_str : cell → string) (csv : ref) : M heap DataFrame :=
  df ← load_and_preprocess num_str csv;
  X ← feature_matrix df;
  deref X.

(** Cells 4 and 6 up to [X], and [reference_columns = list(X.columns)] of
    the last cell. *)
Definition schema_of (num_str : cell → string) (csv : ref) : M heap (list string) :=
  df ← load_and_preprocess num_str csv;
  X ← feature_matrix df;
  column_list X.

(** [list(X.columns)] for the table [survey]. *)
Definition reference_columns : list string :=
  ["tenure"; "total_charges"; "avg_monthly_charge"; "is_short_contract";
   "contract_type_one-year"; "contract_type_two-year";
   "internet_service_fiber optic"; "internet_service_unknown"].

(** The row that [preprocess_input] builds for [new_client]. *)
Definition new_client_row : DataFrame := mkDF 1
  [("tenure", [int 5]);
   ("total_charges", [int 250]);
   ("avg_monthly_charge", [int 50]);
   ("is_short_contract", [one]);
   ("contract_type_one-year", [zero]);
   ("contract_type_two-year", [zero]);
   ("internet_service_fiber optic", [zero]);
   ("internet_service_unknown", [zero])].

(** A stand-in classifier: [Broken] cannot be fitted, the others answer
    with a fixed probability once fitted. *)
Inductive toy :=
| Broken
| Fresh (p : Qc)
| Fitted (p : Qc).

#[global] Instance toy_eq_dec : EqDecision toy.
Proof. solve_decision. Defined.

#[global] Instance toy_estimator : Estimator toy := {
  fit m _ _ :=
    match m with
    | Broken => Raise (LibraryError "did not converge")
    | Fresh p | Fitted p => Ok (Fitted p)
    end;
  predict m X :=
    match m with
    | Fitted p => Ok (repeat (if bool_decide (Q2Qc (1 # 2) ≤ p)%Qc then one else zero)
                             (nrows X))
    | _ => Raise (LibraryError "not fitted")
    end;
  has_predict_proba _ := true;
  predict_proba m X :=
    match m with
    | Fitted p => Ok (repeat [(1 - p)%Qc; p] (nrows X))
    | _ => Raise (LibraryError "not fitted")
    end
}.

#[global] Instance toy_metrics : Metrics toy := {
  confusion_matrix _ _ := Ok "[[1 0] [0 1]]";
  classification_report _ _ := Ok "report";
  roc_auc_score _ _ := Ok "1.0000";
  cross_val_score _ _ _ := Ok ("[1. 1. 1. 1. 1.]", "1.0000")
}.

Definition toy_data : dataset := {|
  X_train := mkDF 0 []; y_train := [];
  X_test := mkDF 0 []; y_test := [];
  X_resampled := mkDF 0 []; y_resampled := []
|}.

(** The dict [models] of cell 8 with a second entry that cannot be fitted. *)
Definition toy_session : session toy :=
  mkSession [("Random Forest", Fresh (Q2Qc (3 # 4)));
             ("Logistic Regression", Broken);
             ("Gradient Boosting", Fresh (Q2Qc (1 # 4)))]
            [].

(** ** Auxiliary notions of the further properties *)

(** Strictly below in the order of the levels. *)
Definition level_lt (a b : cell) : Prop := level_leb a b = true ∧ a ≠ b.

(** The columns that [get_dummies] does not encode. *)
Definition kept (df : DataFrame) : DataFrame :=
  mkDF (nrows df) (filter (λ kv, fst kv ∉ encoded) (columns df)).

(** Every column labelled [c] holds [s]. *)
Definition uniform (df : DataFrame) (c : string) (s : Series) : Prop :=
  Forall (λ kv, fst kv = c → snd kv = s) (columns df).

(** Nothing printed is lost and the keys of [models] stay. *)
Definition extends {E} (st st' : session E) : Prop :=
  stdout st `prefix_of` stdout st' ∧ map fst (models st') = map fst (models st).

(** [d[name] = model] for a key that the dict has. *)
Definition dict_set {E} (name : string) (model : E) (d : list (string * E))
  : list (string * E) :=
  map (λ kv, if String.eqb (fst kv) name then (name, model) else kv) d.

(** An entry and the entry with the fitted estimator. *)
Definition fitted_from `{Estimator E} (d : dataset) (old new : string * E) : Prop :=
  fst new = fst old ∧ fit (snd old) (X_train d) (y_train d) = Ok (snd new).

(** A computation of the loop that loses no output and keeps the keys. *)
Definition keeps {E A} (m : M (session E) A) : Prop := ∀ st, extends st (m st).2.

(** A computation of the loop that leaves [models] alone. *)
Definition same_models {E A} (m : M (session E) A) : Prop :=
  ∀ st, models (m st).2 = models st.

(** Importances for the stand-in classifier. *)
#[global] Instance toy_importances : Importances toy := {
  feature_importances_ m :=
    match m with
    | Fitted p => Ok [p; (1 - p)%Qc]
    | _ => Raise (LibraryError "not fitted")
    end
}.

(** A dict [models] whose three entries can be fitted. *)
Definition toy_session_ok : session toy :=
  mkSession [("Random Forest", Fresh (Q2Qc (3 # 4)));
             ("Logistic Regression", Fresh (Q2Qc (1 # 2)));
             ("Gradient Boosting", Fresh (Q2Qc (1 # 4)))]
            [].

(** [brand_new] with other categories that are not month-to-month. *)
Definition brand_new_other : DataFrame :=
  set_col (set_col brand_new "internet_service" [Str "fiber optic"])
          "contract_type" [Str "one-year"].

(** * Properties *)

Ltac by_evaluation := apply (bool_decide_unpack _); vm_compute; exact I.


(** ** Frames *)

Lemma has_column_true df c : has_column df c = true ↔ c ∈ labels df.
Proof. unfold has_column. apply bool_decide_eq_true. Qed.

Lemma has_column_false df c : has_column df c = false ↔ c ∉ labels df.
Proof. unfold has_column. apply bool_decide_eq_false. Qed.

Lemma find_label_None (cols : list (string * Series)) c :
  find (λ kv, String.eqb (fst kv) c) cols = None ↔ c ∉ map fst cols.
Proof.
  induction cols as [|[k s] cols IH]; simpl.
  - split; [intros _; apply not_elem_of_nil | done].
  - destruct (String.eqb_spec k c) as [->|Hne].
    + split; [done | intros H; exfalso; apply H; left].
    + rewrite IH, not_elem_of_cons. intuition congruence.
Qed.

Lemma get_col_None df c : get_col df c = None ↔ c ∉ labels df.
Proof.
  unfold get_col, labels. rewrite fmap_None. apply find_label_None.
Qed.

Lemma get_col_is_Some df c : is_Some (get_col df c) ↔ c ∈ labels df.
Proof.
  rewrite <- not_eq_None_Some, get_col_None.
  split; [apply dec_stable | auto].
Qed.

Lemma get_col_has_column df c s : get_col df c = Some s → has_column df c = true.
Proof. intros H. apply has_column_true, get_col_is_Some. eauto. Qed.

Lemma labels_set_col df c s :
  labels (set_col df c s) =
  if has_column df c then labels df else (labels df ++ [c])%list.
Proof.
  unfold set_col, labels. destruct (has_column df c); simpl.
  - rewrite map_map. apply map_ext. intros [k v]; simpl.
    by destruct (String.eqb k c).
  - by rewrite map_app.
Qed.

Lemma nrows_set_col df c s : nrows (set_col df c s) = nrows df.
Proof. unfold set_col. by destruct (has_column df c). Qed.

Lemma get_col_set_col_eq df c s : get_col (set_col df c s) c = Some s.
Proof.
  unfold set_col. destruct (has_column df c) eqn:Hc; unfold get_col; simpl.
  - apply has_column_true in Hc. unfold labels in Hc.
    induction (columns df) as [|[k v] cols IH]; simpl in *.
    + by apply elem_of_nil in Hc.
    + destruct (String.eqb_spec k c) as [->|Hne]; simpl.
      * by rewrite String.eqb_refl.
      * destruct (String.eqb_spec k c); [done|].
        apply IH. apply elem_of_cons in Hc as [?|?]; congruence.
  - apply has_column_false in Hc. unfold labels in Hc.
    induction (columns df) as [|[k v] cols IH]; simpl in *.
    + by rewrite String.eqb_refl.
    + apply not_elem_of_cons in Hc as [Hne Hc].
      destruct (String.eqb_spec k c); [congruence|]. by apply IH.
Qed.

Lemma get_col_set_col_ne df c c' s :
  c ≠ c' → get_col (set_col df c s) c' = get_col df c'.
Proof.
  intros Hne. unfold set_col, get_col.
  destruct (has_column df c); simpl; f_equal.
  - induction (columns df) as [|[k v] cols IH]; simpl; [done|].
    destruct (String.eqb_spec k c) as [->|Hk]; simpl.
    + destruct (String.eqb_spec c c'); [done|]. apply IH.
    + destruct (String.eqb_spec k c'); [done|]. apply IH.
  - induction (columns df) as [|[k v] cols IH]; simpl.
    + by destruct (String.eqb_spec c c').
    + destruct (String.eqb_spec k c'); [done|]. apply IH.
Qed.

Lemma wf_set_col df c s :
  wf df → List.length s = nrows df → wf (set_col df c s).
Proof.
  unfold wf, set_col. intros Hwf Hs.
  destruct (has_column df c); simpl.
  - apply Forall_map. eapply Forall_impl; [exact Hwf|].
    intros [k v] Hv; simpl in *. by destruct (String.eqb k c).
  - apply Forall_app. split; [done|]. by constructor.
Qed.

Lemma NoDup_labels_set_col df c s :
  NoDup (labels df) → NoDup (labels (set_col df c s)).
Proof.
  intros Hnd. rewrite labels_set_col.
  destruct (has_column df c) eqn:Hc; [done|].
  apply has_column_false in Hc.
  apply NoDup_app. split_and!; [done | | apply NoDup_singleton].
  intros x Hx Hx'. apply list_elem_of_singleton in Hx'. by subst.
Qed.

(** ** Running computations *)

Section Runs.
Variable num_str : cell → string.
Local Open Scope list_scope.

Lemma bind_run {S A B} (m : M S A) (k : A → M S B) σ :
  (m ≫= k) σ = match m σ with
               | (Ok a, σ') => k a σ'
               | (Raise e, σ') => (Raise e, σ')
               end.
Proof. reflexivity. Qed.

Lemma bind_ok {S A B} (m : M S A) (k : A → M S B) σ a σ' :
  m σ = (Ok a, σ') → (m ≫= k) σ = k a σ'.
Proof. intros H. by rewrite bind_run, H. Qed.

Lemma bind_raise {S A B} (m : M S A) (k : A → M S B) σ e σ' :
  m σ = (Raise e, σ') → (m ≫= k) σ = (Raise e, σ').
Proof. intros H. by rewrite bind_run, H. Qed.

Lemma lift_run {S A} (r : result A) (σ : S) : lift r σ = (r, σ).
Proof. reflexivity. Qed.

Lemma deref_run (σ : heap) r df : σ !! r = Some df → deref r σ = (Ok df, σ).
Proof. intros H. unfold deref. by rewrite H. Qed.

Lemma getitem_run (σ : heap) r df c :
  σ !! r = Some df → getitem r c σ = (col df c, σ).
Proof.
  intros H. unfold getitem. rewrite (bind_ok _ _ _ _ _ (deref_run _ _ _ H)).
  unfold col. by destruct (get_col df c).
Qed.

Lemma setitem_run (σ : heap) r df c s :
  σ !! r = Some df → setitem r c s σ = (Ok tt, <[r := set_col df c s]> σ).
Proof.
  intros H. unfold setitem. by rewrite (bind_ok _ _ _ _ _ (deref_run _ _ _ H)).
Qed.

Lemma setitem_scalar_run (σ : heap) r df c v :
  σ !! r = Some df →
  setitem_scalar r c v σ = (Ok tt, <[r := set_col df c (repeat v (nrows df))]> σ).
Proof.
  intros H. unfold setitem_scalar.
  by rewrite (bind_ok _ _ _ _ _ (deref_run _ _ _ H)).
Qed.

Lemma lookup_insert_same (σ : heap) r df d :
  σ !! r = Some df → <[r := d]> σ !! r = Some d.
Proof. intros H. apply list_lookup_insert_eq. by eapply lookup_lt_Some. Qed.

(** The loop of [preprocess_input] over the reference columns. *)
Lemma fill_loop_run (refs : list string) (σ : heap) a d :
  σ !! a = Some d →
  for_each refs (λ col,
    df ← deref a;
    if negb (has_column df col) then setitem_scalar a col zero else ret tt) σ
  = (Ok tt, <[a := fill_missing refs d]> σ).
Proof.
  revert σ d. induction refs as [|c refs IH]; intros σ d H;
    unfold fill_missing; cbn [for_each fold_left].
  - by rewrite list_insert_id.
  - rewrite bind_run, bind_run, (deref_run _ _ _ H).
    destruct (has_column d c); cbn [negb].
    + by apply IH.
    + rewrite (setitem_scalar_run _ _ _ _ _ H).
      rewrite (IH _ (set_col d c (repeat zero (nrows d)))).
      * by rewrite list_insert_insert_eq.
      * by eapply lookup_insert_same.
Qed.

(** The statements that both paths start with, followed by any
    continuation [k]: they leave [engineer df] at the address, or raise
    what [engineer df] raises and leave some frame there. *)
Lemma engineer_run {A} (k : M heap A) (σ : heap) r df :
  σ !! r = Some df →
  let prog :=
    fillna_inplace r "internet_service" (Str "unknown");;
    total_charges ← getitem r "total_charges";
    tenure ← getitem r "tenure";
    avg ← lift (series_truediv total_charges (replace zero NaN tenure));
    setitem r "avg_monthly_charge" avg;;
    contract_type ← getitem r "contract_type";
    setitem r "is_short_contract" (apply short_contract contract_type);;
    k in
  match engineer df with
  | Ok df3 => prog σ = k (<[r := df3]> σ)
  | Raise e => ∃ d, prog σ = (Raise e, <[r := d]> σ)
  end.
Proof.
  intros H prog. subst prog. unfold engineer, fillna_inplace.
  rewrite !bind_run, (getitem_run _ _ _ _ H).
  destruct (col df "internet_service") as [isv|e]; simpl;
    [|exists df; by rewrite list_insert_id].
  rewrite (setitem_run _ _ _ _ _ H).
  set (df1 := set_col df _ _).
  assert (H1 : <[r := df1]> σ !! r = Some df1) by by eapply lookup_insert_same.
  rewrite !bind_run, (getitem_run _ _ _ _ H1).
  destruct (col df1 "total_charges") as [tc|e]; simpl; [|by eexists].
  rewrite !bind_run, (getitem_run _ _ _ _ H1).
  destruct (col df1 "tenure") as [tn|e]; simpl; [|by eexists].
  rewrite !bind_run, lift_run.
  destruct (series_truediv tc (replace zero NaN tn)) as [avg|e]; simpl;
    [|by eexists].
  rewrite !bind_run, (setitem_run _ _ _ _ _ H1), list_insert_insert_eq.
  set (df2 := set_col df1 _ _).
  assert (H2 : <[r := df2]> σ !! r = Some df2) by by eapply lookup_insert_same.
  rewrite !bind_run, (getitem_run _ _ _ _ H2).
  destruct (col df2 "contract_type") as [ct|e]; simpl; [|by eexists].
  rewrite !bind_run, (setitem_run _ _ _ _ _ H2), list_insert_insert_eq.
  done.
Qed.

Lemma alloc_run (σ : heap) df : alloc df σ = (Ok (List.length σ), σ ++ [df]).
Proof. reflexivity. Qed.

Lemma copy_run (σ : heap) r df :
  σ !! r = Some df → copy r σ = (Ok (List.length σ), σ ++ [df]).
Proof.
  intros H. unfold copy. by rewrite (bind_ok _ _ _ _ _ (deref_run _ _ _ H)).
Qed.

Lemma pd_get_dummies_run (σ : heap) r df cs :
  σ !! r = Some df →
  pd_get_dummies num_str r cs σ =
  match get_dummies num_str df cs with
  | Ok df' => (Ok (List.length σ), σ ++ [df'])
  | Raise e => (Raise e, σ)
  end.
Proof.
  intros H. unfold pd_get_dummies.
  rewrite (bind_ok _ _ _ _ _ (deref_run _ _ _ H)), bind_run, lift_run.
  by destruct (get_dummies num_str df cs).
Qed.

Lemma getitem_list_run (σ : heap) r df cs :
  σ !! r = Some df →
  getitem_list r cs σ =
  match select df cs with
  | Ok df' => (Ok (List.length σ), σ ++ [df'])
  | Raise e => (Raise e, σ)
  end.
Proof.
  intros H. unfold getitem_list.
  rewrite (bind_ok _ _ _ _ _ (deref_run _ _ _ H)), bind_run, lift_run.
  by destruct (select df cs).
Qed.

Lemma pd_drop_run (σ : heap) r df cs :
  σ !! r = Some df →
  pd_drop r cs σ =
  match drop df cs with
  | Ok df' => (Ok (List.length σ), σ ++ [df'])
  | Raise e => (Raise e, σ)
  end.
Proof.
  intros H. unfold pd_drop.
  rewrite (bind_ok _ _ _ _ _ (deref_run _ _ _ H)), bind_run, lift_run.
  by destruct (drop df cs).
Qed.

Lemma lookup_fresh (σ : heap) df : (σ ++ [df]) !! List.length σ = Some df.
Proof. by rewrite lookup_app_r, Nat.sub_diag. Qed.

Lemma insert_fresh (σ : heap) df d :
  <[List.length σ := d]> (σ ++ [df]) = σ ++ [d].
Proof. by rewrite insert_app_r_alt, Nat.sub_diag. Qed.

(** What a call of [preprocess_input] does to the store and what it
    returns: the frame at the address it was given is replaced, new frames
    are added after the old ones, and the frame returned is [aligned]. *)
Lemma preprocess_input_run (σ : heap) r df refs :
  σ !! r = Some df →
  ∃ d l, (preprocess_input num_str r refs σ).2 = <[r := d]> σ ++ l ∧
    match aligned num_str df refs with
    | Raise e => (preprocess_input num_str r refs σ).1 = Raise e
    | Ok out =>
        (preprocess_input num_str r refs σ).1 = Ok (S (List.length σ)) ∧
        engineer df = Ok d ∧ ∃ filled, l = [filled; out]
    end.
Proof.
  intros H. unfold preprocess_input, aligned.
  match goal with |- context [setitem r "is_short_contract" _ ≫= λ _, ?K] =>
    pose proof (engineer_run K σ r df H) as E end.
  cbv zeta in E. fold encoded in E |- *.
  destruct (engineer df) as [df3|e]; cbn [result_bind].
  - rewrite E. clear E.
    assert (H3 : <[r := df3]> σ !! r = Some df3) by by eapply lookup_insert_same.
    set (σ1 := <[r := df3]> σ) in *.
    rewrite bind_run, (pd_get_dummies_run _ _ _ _ H3).
    destruct (get_dummies num_str df3 encoded) as [df4|e]; cbn [result_bind].
    + rewrite bind_run, (fill_loop_run _ _ _ _ (lookup_fresh σ1 df4)).
      rewrite insert_fresh.
      rewrite (getitem_list_run _ _ _ _ (lookup_fresh σ1 _)).
      destruct (select (fill_missing refs df4) refs) as [out|e].
      * exists df3, [fill_missing refs df4; out]. cbn [fst snd].
        split; [by rewrite <- app_assoc|].
        split_and!; [|done|by eexists].
        rewrite length_app. unfold σ1. rewrite length_insert. simpl.
        f_equal. lia.
      * exists df3, [fill_missing refs df4]. by cbn [fst snd].
    + exists df3, []. cbn [fst snd]. by rewrite app_nil_r.
  - destruct E as [d E]. rewrite E. exists d, []. cbn [fst snd].
    by rewrite app_nil_r.
Qed.

(** The same for cell 4. *)
Lemma load_and_preprocess_run (σ : heap) r df :
  σ !! r = Some df →
  ∃ d l, (load_and_preprocess num_str r σ).2 = <[r := d]> σ ++ l ∧
    match trained num_str df with
    | Raise e => (load_and_preprocess num_str r σ).1 = Raise e
    | Ok df5 =>
        (load_and_preprocess num_str r σ).1 = Ok (List.length σ) ∧
        engineer df = Ok d ∧ l = [df5]
    end.
Proof.
  intros H. unfold load_and_preprocess, trained.
  match goal with |- context [setitem r "is_short_contract" _ ≫= λ _, ?K] =>
    pose proof (engineer_run K σ r df H) as E end.
  cbv zeta in E. fold encoded in E |- *.
  destruct (engineer df) as [df3|e]; cbn [result_bind].
  - rewrite E. clear E.
    assert (H3 : <[r := df3]> σ !! r = Some df3) by by eapply lookup_insert_same.
    set (σ1 := <[r := df3]> σ) in *.
    assert (Hlen : List.length σ1 = List.length σ)
      by (unfold σ1; by rewrite length_insert).
    rewrite bind_run, (pd_get_dummies_run _ _ _ _ H3).
    destruct (get_dummies num_str df3 encoded) as [df4|e]; cbn [result_bind].
    + rewrite bind_run, (getitem_run _ _ _ _ (lookup_fresh σ1 df4)).
      destruct (col df4 "churn") as [churn|e]; cbn [result_bind].
      * rewrite bind_run, (setitem_run _ _ _ _ _ (lookup_fresh σ1 df4)).
        rewrite insert_fresh. exists df3, [set_col df4 "churn" (series_map churn_codes churn)].
        cbn [fst snd]. rewrite Hlen. by split_and!.
      * exists df3, [df4]. by cbn [fst snd].
    + exists df3, []. cbn [fst snd]. by rewrite app_nil_r.
  - destruct E as [d E]. rewrite E. exists d, []. cbn [fst snd].
    by rewrite app_nil_r.
Qed.

(** [aligned_row] copies first, so the frame at [r] and every other old
    frame stay as they were. *)
Lemma aligned_row_run (σ : heap) r df refs :
  σ !! r = Some df →
  (aligned_row num_str r refs σ).1 = aligned num_str df refs ∧
  ∃ l, (aligned_row num_str r refs σ).2 = σ ++ l.
Proof.
  intros H. unfold aligned_row.
  rewrite (bind_ok _ _ _ _ _ (copy_run _ _ _ H)), bind_run.
  destruct (preprocess_input_run (σ ++ [df]) (List.length σ) df refs
              (lookup_fresh σ df)) as (d & l & Hσ & Hres).
  destruct (preprocess_input num_str (List.length σ) refs (σ ++ [df]))
    as [res σ'] eqn:Hrun. cbn [fst snd] in *. subst σ'.
  rewrite insert_fresh, <- app_assoc in *.
  destruct (aligned num_str df refs) as [out|e].
  - destruct Hres as (-> & _ & filled & ->).
    rewrite length_app; simpl.
    assert (Hout : (σ ++ [d; filled; out]) !! S (List.length σ + 1) = Some out).
    { rewrite lookup_app_r by lia.
      by replace (S (List.length σ + 1) - List.length σ) with 2 by lia. }
    rewrite (deref_run _ _ _ Hout). split; [done|by eexists].
  - subst res. split; [done|by eexists].
Qed.

End Runs.

(** ** The engineered columns *)

Lemma result_all_Ok {A} (rs : list (result A)) (l : list A) :
  result_all rs = Ok l ↔ rs = map Ok l.
Proof.
  revert l. induction rs as [|r rs IH]; intros l; simpl.
  - split.
    + intros [= <-]. done.
    + destruct l; [done | discriminate].
  - destruct r as [a|e]; simpl.
    + destruct (result_all rs) as [l'|e] eqn:Hrs; simpl.
      * split.
        -- intros [= <-]. simpl. f_equal. by apply IH.
        -- destruct l as [|a' l]; [discriminate|]. simpl. intros [= -> Hl].
           apply IH in Hl. by injection Hl as ->.
      * split; [discriminate|].
        destruct l as [|a' l]; [discriminate|]. simpl. intros [= -> Hl].
        apply IH in Hl. discriminate.
    + split; [discriminate|]. destruct l; discriminate.
Qed.

(** Division of numbers never raises. *)
Lemma truediv_number a b :
  is_number a = true → is_number b = true → ∃ v, truediv a b = Ok v.
Proof.
  destruct a, b; simpl; try discriminate; intros _ _; eauto;
    repeat case_bool_decide; eauto.
Qed.

Lemma is_number_replace b :
  is_number b = true → is_number (if py_eq b zero then NaN else b) = true.
Proof. by destruct (py_eq b zero). Qed.

(** [total_charges / tenure.replace(0, np.nan)] on numeric columns: it
    returns, row by row, the quotient of the cell of [total] and the
    replaced cell of [tenure]. *)
Lemma avg_column_numeric (total tenure : Series) :
  numeric total = true → numeric tenure = true →
  ∃ avg, series_truediv total (replace zero NaN tenure) = Ok avg ∧
    List.length avg = min (List.length total) (List.length tenure) ∧
    ∀ i a b, total !! i = Some a → tenure !! i = Some b →
      ∃ v, truediv a (if py_eq b zero then NaN else b) = Ok v ∧ avg !! i = Some v.
Proof.
  unfold series_truediv, replace, numeric.
  revert tenure. induction total as [|a total IH]; intros tenure Ht Hn.
  - exists []. simpl. split_and!; [done..|]. intros i a b Hi. by destruct i.
  - destruct tenure as [|b tenure].
    { exists []. simpl. split_and!; [done..|]. intros i ? ? _ Hi. by destruct i. }
    simpl in Ht, Hn. apply andb_true_iff in Ht as [Ha Ht].
    apply andb_true_iff in Hn as [Hb Hn].
    destruct (IH tenure Ht Hn) as (avg & Havg & Hlen & Hrows).
    destruct (truediv_number a _ Ha (is_number_replace b Hb)) as [v Hv].
    exists (v :: avg). simpl. rewrite Hv. simpl. rewrite Havg. simpl.
    split_and!; [done | by rewrite Hlen |].
    intros [|i] a' b'; simpl.
    + intros [= <-] [= <-]. eauto.
    + apply Hrows.
Qed.

(** [engineer] succeeds when the four raw columns are there and the
    quotient does not raise; the result is the input with
    [internet_service] filled and the two derived columns set. *)
Lemma engineer_Ok df isv tc tn ct avg :
  get_col df "internet_service" = Some isv →
  get_col df "total_charges" = Some tc →
  get_col df "tenure" = Some tn →
  get_col df "contract_type" = Some ct →
  series_truediv tc (replace zero NaN tn) = Ok avg →
  engineer df =
  Ok (set_col (set_col (set_col df "internet_service" (fillna (Str "unknown") isv))
                       "avg_monthly_charge" avg)
              "is_short_contract" (apply short_contract ct)).
Proof.
  intros His Htc Htn Hct Havg. unfold engineer, col.
  rewrite His. cbn [result_bind].
  rewrite !get_col_set_col_ne by discriminate.
  rewrite Htc, Htn. cbn [result_bind]. rewrite Havg. cbn [result_bind].
  rewrite !get_col_set_col_ne by discriminate.
  by rewrite Hct.
Qed.

(** A record without one of the required columns: [engineer] raises
    KeyError on the first one that it reads and does not find. *)
Lemma engineer_missing df c :
  numeric_fields df = true →
  find (λ c, negb (has_column df c)) required = Some c →
  engineer df = Raise (KeyError c).
Proof.
  unfold numeric_fields, numeric_field, required, engineer, col.
  intros Hnum Hfind. apply andb_true_iff in Hnum as [Htc Htn].
  cbn [find] in Hfind.
  destruct (get_col df "internet_service") as [isv|] eqn:His.
  2:{ apply get_col_None, has_column_false in His. rewrite His in Hfind.
      by injection Hfind as <-. }
  rewrite (get_col_has_column _ _ _ His) in Hfind. cbn [negb result_bind] in *.
  rewrite !get_col_set_col_ne by discriminate.
  destruct (get_col df "total_charges") as [tc|] eqn:Etc.
  2:{ apply get_col_None, has_column_false in Etc. rewrite Etc in Hfind.
      by injection Hfind as <-. }
  rewrite (get_col_has_column _ _ _ Etc) in Hfind. cbn [negb result_bind] in *.
  destruct (get_col df "tenure") as [tn|] eqn:Etn.
  2:{ apply get_col_None, has_column_false in Etn. rewrite Etn in Hfind.
      by injection Hfind as <-. }
  rewrite (get_col_has_column _ _ _ Etn) in Hfind. cbn [negb result_bind] in *.
  destruct (avg_column_numeric tc tn Htc Htn) as (avg & -> & _).
  cbn [result_bind]. rewrite !get_col_set_col_ne by discriminate.
  destruct (get_col df "contract_type") as [ct|] eqn:Ect.
  - by rewrite (get_col_has_column _ _ _ Ect) in Hfind.
  - apply get_col_None, has_column_false in Ect. rewrite Ect in Hfind.
    by injection Hfind as <-.
Qed.

(** ** Selection and encoding *)

Section Encoding.
Variable num_str : cell → string.
Local Open Scope list_scope.

Lemma find_absent_None df (cs : list string) :
  find (λ c, negb (has_column df c)) cs = None ↔ ∀ c, c ∈ cs → c ∈ labels df.
Proof.
  induction cs as [|c cs IH]; simpl.
  - split; [|done]. intros _ c Hc. by apply elem_of_nil in Hc.
  - destruct (has_column df c) eqn:Hc; simpl.
    + apply has_column_true in Hc. rewrite IH. split.
      * intros H x Hx. apply elem_of_cons in Hx as [->|Hx]; auto.
      * intros H x Hx. apply H. by right.
    + apply has_column_false in Hc. split; [done|].
      intros H. exfalso. apply Hc, H. by left.
Qed.

Lemma find_absent_Some df (cs : list string) c :
  find (λ c, negb (has_column df c)) cs = Some c → c ∈ cs ∧ c ∉ labels df.
Proof.
  intros H. apply find_some in H as [Hin Hc]. split.
  - by apply list_elem_of_In.
  - apply has_column_false. by destruct (has_column df c).
Qed.

Lemma find_label_app (l1 l2 : list (string * Series)) c :
  c ∈ map fst l1 →
  find (λ kv, String.eqb (fst kv) c) (l1 ++ l2) =
  find (λ kv, String.eqb (fst kv) c) l1.
Proof.
  induction l1 as [|[k v] l1 IH]; simpl; intros Hc.
  - by apply elem_of_nil in Hc.
  - destruct (String.eqb_spec k c); [done|].
    apply IH. apply elem_of_cons in Hc as [?|?]; congruence.
Qed.

Lemma find_filter_eq (cols rest : list (string * Series)) c :
  c ∈ map fst cols →
  find (λ kv, String.eqb (fst kv) c) (filter (λ kv, fst kv = c) cols ++ rest) =
  find (λ kv, String.eqb (fst kv) c) cols.
Proof.
  induction cols as [|[k v] cols IH]; intros Hc.
  - by apply elem_of_nil in Hc.
  - rewrite filter_cons. simpl in *. case_decide as Hk.
    + subst k. simpl. by rewrite String.eqb_refl.
    + destruct (String.eqb_spec k c); [done|].
      apply IH. apply elem_of_cons in Hc as [?|?]; congruence.
Qed.

Lemma find_filter_ne (cols rest : list (string * Series)) c c' :
  c' ≠ c →
  find (λ kv, String.eqb (fst kv) c) (filter (λ kv, fst kv = c') cols ++ rest) =
  find (λ kv, String.eqb (fst kv) c) rest.
Proof.
  intros Hne. induction cols as [|[k v] cols IH]; [done|].
  rewrite filter_cons. simpl. case_decide as Hk; [|done].
  subst k. simpl. by destruct (String.eqb_spec c' c).
Qed.

(** The first column labelled [c] of a selection is the first column
    labelled [c] of the frame. *)
Lemma get_col_select df cs out c :
  select df cs = Ok out → c ∈ cs → get_col out c = get_col df c.
Proof.
  unfold select. destruct (find _ cs) eqn:Hf; [discriminate|].
  intros [= <-] Hc. unfold get_col; simpl. f_equal.
  induction cs as [|c' cs IH]; simpl.
  - by apply elem_of_nil in Hc.
  - simpl in Hf. destruct (has_column df c') eqn:Hc'; [|discriminate].
    simpl in Hf. destruct (decide (c' = c)) as [->|Hne].
    + apply find_filter_eq. by apply has_column_true in Hc'.
    + rewrite find_filter_ne by done.
      apply elem_of_cons in Hc as [?|Hc]; [congruence|]. by apply IH.
Qed.

Lemma select_Ok df cs :
  (∀ c, c ∈ cs → c ∈ labels df) →
  select df cs =
  Ok (mkDF (nrows df) (flat_map (λ c, filter (λ kv, fst kv = c) (columns df)) cs)).
Proof.
  intros H. unfold select. by rewrite (proj2 (find_absent_None df cs) H).
Qed.

Lemma filter_label_absent (cols : list (string * Series)) c :
  c ∉ map fst cols → filter (λ kv, fst kv = c) cols = [].
Proof.
  induction cols as [|[k v] cols IH]; [done|]. simpl. intros Hc.
  apply not_elem_of_cons in Hc as [Hne Hc].
  rewrite filter_cons. simpl. rewrite decide_False by congruence. by apply IH.
Qed.

(** In a frame with distinct labels a label selects one column. *)
Lemma filter_label_NoDup (cols : list (string * Series)) c s :
  NoDup (map fst cols) →
  snd <$> find (λ kv, String.eqb (fst kv) c) cols = Some s →
  filter (λ kv, fst kv = c) cols = [(c, s)].
Proof.
  induction cols as [|[k v] cols IH]; simpl; [done|].
  intros Hnd Hf. apply NoDup_cons in Hnd as [Hk Hnd].
  rewrite filter_cons. simpl. destruct (String.eqb_spec k c) as [->|Hne].
  - injection Hf as ->. rewrite decide_True by done. f_equal.
    by apply filter_label_absent.
  - rewrite decide_False by done. by apply IH.
Qed.

(** Selecting labels that exist from a frame with distinct labels gives
    the named columns in the order asked for. *)
Lemma select_NoDup df cs :
  NoDup (labels df) →
  (∀ c, c ∈ cs → c ∈ labels df) →
  select df cs =
  Ok (mkDF (nrows df) (map (λ c, (c, default [] (get_col df c))) cs)).
Proof.
  intros Hnd H. rewrite select_Ok by done. do 2 f_equal.
  induction cs as [|c cs IH]; [done|]. simpl.
  assert (Hc : c ∈ labels df) by (apply H; by left).
  apply get_col_is_Some in Hc as [s Hs]. rewrite Hs. simpl.
  rewrite (filter_label_NoDup _ _ _ Hnd Hs). simpl. f_equal.
  apply IH. intros x Hx. apply H. by right.
Qed.

(** *** The loop over the reference columns *)

Lemma fill_missing_cons c refs df :
  fill_missing (c :: refs) df =
  fill_missing refs (if negb (has_column df c)
                     then set_col df c (repeat zero (nrows df)) else df).
Proof. reflexivity. Qed.

Lemma nrows_fill_missing refs df : nrows (fill_missing refs df) = nrows df.
Proof.
  revert df. induction refs as [|c refs IH]; intros df; [done|].
  rewrite fill_missing_cons, IH. destruct (has_column df c); simpl; [done|].
  apply nrows_set_col.
Qed.

Lemma NoDup_fill_missing refs df :
  NoDup (labels df) → NoDup (labels (fill_missing refs df)).
Proof.
  revert df. induction refs as [|c refs IH]; intros df Hnd; [done|].
  rewrite fill_missing_cons. apply IH.
  destruct (has_column df c); simpl; [done|]. by apply NoDup_labels_set_col.
Qed.

(** A column that the frame has is left alone by the loop. *)
Lemma get_col_fill_missing_present refs df c :
  c ∈ labels df → get_col (fill_missing refs df) c = get_col df c.
Proof.
  revert df. induction refs as [|c' refs IH]; intros df Hc; [done|].
  rewrite fill_missing_cons.
  destruct (has_column df c') eqn:Hc'; simpl; [by apply IH|].
  apply has_column_false in Hc'.
  rewrite IH.
  - apply get_col_set_col_ne. congruence.
  - rewrite labels_set_col.
    rewrite (proj2 (has_column_false df c')) by done.
    apply elem_of_app. by left.
Qed.

(** A reference column that the frame does not have is a column of zeros
    after the loop. *)
Lemma get_col_fill_missing_absent refs df c :
  c ∈ refs → c ∉ labels df →
  get_col (fill_missing refs df) c = Some (repeat zero (nrows df)).
Proof.
  revert df. induction refs as [|c' refs IH]; intros df Hc Habs.
  - by apply elem_of_nil in Hc.
  - rewrite fill_missing_cons. destruct (decide (c' = c)) as [->|Hne].
    + rewrite (proj2 (has_column_false df c)) by done. simpl.
      rewrite get_col_fill_missing_present.
      * apply get_col_set_col_eq.
      * apply get_col_is_Some. rewrite get_col_set_col_eq. eauto.
    + apply elem_of_cons in Hc as [?|Hc]; [congruence|].
      destruct (has_column df c') eqn:Hc'; simpl; [by apply IH|].
      rewrite IH; [by rewrite nrows_set_col | done |].
      rewrite labels_set_col, Hc'. rewrite elem_of_app, list_elem_of_singleton.
      intros [?|?]; [done|congruence].
Qed.

Lemma fill_missing_complete refs df c :
  c ∈ refs → c ∈ labels (fill_missing refs df).
Proof.
  intros Hc. apply get_col_is_Some.
  destruct (decide (c ∈ labels df)) as [Hin|Hout].
  - rewrite get_col_fill_missing_present by done. by apply get_col_is_Some.
  - rewrite get_col_fill_missing_absent by done. eauto.
Qed.

(** *** get_dummies *)

Lemma labels_filter_label (cols : list (string * Series)) c x :
  x ∈ map fst (filter (λ kv, fst kv = c) cols) ↔ x = c ∧ c ∈ map fst cols.
Proof.
  rewrite !list_elem_of_fmap. split.
  - intros ([k v] & -> & Hin). apply list_elem_of_filter in Hin as [Hk Hin].
    simpl in *. subst. split; [done|]. by exists (c, v).
  - intros (-> & [k v] & Hk & Hin). simpl in Hk. subst k.
    exists (c, v). split; [done|]. by apply list_elem_of_filter.
Qed.

Lemma find_filter_keep (P : string * Series → Prop) `{!∀ x, Decision (P x)}
    (cols : list (string * Series)) c :
  (∀ kv, fst kv = c → P kv) →
  find (λ kv, String.eqb (fst kv) c) (filter P cols) =
  find (λ kv, String.eqb (fst kv) c) cols.
Proof.
  intros HP. induction cols as [|[k v] cols IH]; [done|].
  rewrite filter_cons. simpl. destruct (String.eqb_spec k c) as [->|Hne].
  - rewrite decide_True by by apply HP. simpl. by rewrite String.eqb_refl.
  - case_decide; simpl; [|done].
    destruct (String.eqb_spec k c); [done|]. apply IH.
Qed.

Lemma elem_of_encoded c :
  c ∈ encoded ↔ c = "contract_type" ∨ c = "internet_service".
Proof.
  unfold encoded. rewrite !elem_of_cons, elem_of_nil. tauto.
Qed.

(** With both categorical columns in the frame [get_dummies] returns the
    other columns followed by the indicator columns. *)
Lemma get_dummies_Ok df :
  "contract_type" ∈ labels df → "internet_service" ∈ labels df →
  get_dummies num_str df encoded =
  Ok (mkDF (nrows df)
        (filter (λ kv, fst kv ∉ encoded) (columns df) ++
         flat_map (λ kv, get_dummies_1d num_str (fst kv) (snd kv))
           (filter (λ kv, fst kv = "contract_type") (columns df) ++
            filter (λ kv, fst kv = "internet_service") (columns df)))).
Proof.
  intros Hct His. unfold get_dummies.
  rewrite select_Ok.
  2:{ intros c Hc. apply elem_of_encoded in Hc as [->| ->]; done. }
  cbn [result_bind]. unfold drop.
  set (enc := mkDF _ _).
  assert (Hlab : ∀ x, x ∈ labels enc ↔ x ∈ encoded).
  { intros x. rewrite elem_of_encoded. unfold enc, labels, encoded.
    cbn [columns flat_map].
    rewrite app_nil_r, map_app, elem_of_app, !labels_filter_label.
    fold (labels df). tauto. }
  rewrite (proj2 (find_absent_None df (labels enc))).
  2:{ intros c Hc. apply Hlab, elem_of_encoded in Hc as [->| ->]; done. }
  cbn [result_bind nrows columns]. do 2 f_equal. f_equal.
  - apply list_filter_iff. intros kv. by rewrite Hlab.
  - unfold enc, encoded; cbn [columns flat_map]. by rewrite app_nil_r.
Qed.

(** A column kept by [get_dummies] is found in its result. *)
Lemma get_col_get_dummies df df' c :
  get_dummies num_str df encoded = Ok df' →
  c ∉ encoded → c ∈ labels df →
  get_col df' c = get_col df c.
Proof.
  intros Hgd Hc Hin.
  assert (Hboth : "contract_type" ∈ labels df ∧ "internet_service" ∈ labels df).
  { unfold get_dummies in Hgd.
    destruct (select df encoded) as [enc|] eqn:Hsel; [|discriminate].
    unfold select in Hsel.
    destruct (find _ encoded) eqn:Hf; [discriminate|].
    pose proof (proj1 (find_absent_None df encoded) Hf) as Hall.
    split; apply Hall, elem_of_encoded; auto. }
  destruct Hboth as [Hct His].
  rewrite (get_dummies_Ok df Hct His) in Hgd. injection Hgd as <-.
  unfold get_col. cbn [columns]. f_equal.
  rewrite find_label_app.
  - apply (find_filter_keep (λ kv, fst kv ∉ encoded)). by intros kv ->.
  - apply list_elem_of_fmap. apply list_elem_of_fmap in Hin as ([k v] & -> & Hin).
    exists (k, v). split; [done|]. by apply list_elem_of_filter.
Qed.

Lemma get_dummies_1d_short pfx (data : Series) :
  (List.length data ≤ 1)%nat → get_dummies_1d num_str pfx data = [].
Proof.
  destruct data as [|x [|y data]]; simpl; [done| |lia].
  intros _. by destruct x.
Qed.

(** A frame with at most one row gets no indicator column: each encoded
    column has one level at most, and the first level is dropped. *)
Lemma get_dummies_one_row df :
  wf df → (nrows df ≤ 1)%nat →
  "contract_type" ∈ labels df → "internet_service" ∈ labels df →
  get_dummies num_str df encoded =
  Ok (mkDF (nrows df) (filter (λ kv, fst kv ∉ encoded) (columns df))).
Proof.
  intros Hwf Hn Hct His. rewrite get_dummies_Ok by done. do 2 f_equal.
  rewrite <- (app_nil_r (filter _ (columns df))) at 2. f_equal.
  rewrite flat_map_concat_map. apply concat_nil_Forall, Forall_map.
  apply Forall_app. unfold wf in Hwf.
  split; apply Forall_forall; intros [k v] Hin;
    apply list_elem_of_filter in Hin as [_ Hin];
    apply get_dummies_1d_short;
    rewrite Forall_forall in Hwf; specialize (Hwf _ Hin); simpl in *; lia.
Qed.

End Encoding.

(** ** The two preprocessing paths *)

Section Paths.
Variable num_str : cell → string.
Local Open Scope list_scope.

Lemma engineer_inv df df3 :
  engineer df = Ok df3 →
  ∃ isv tc tn ct avg,
    get_col df "internet_service" = Some isv ∧
    get_col df "total_charges" = Some tc ∧
    get_col df "tenure" = Some tn ∧
    get_col df "contract_type" = Some ct ∧
    series_truediv tc (replace zero NaN tn) = Ok avg ∧
    df3 = engineered df isv avg ct.
Proof.
  unfold engineer, col.
  destruct (get_col df "internet_service") as [isv|] eqn:His; [|discriminate].
  cbn [result_bind]. rewrite !get_col_set_col_ne by discriminate.
  destruct (get_col df "total_charges") as [tc|] eqn:Htc; [|discriminate].
  destruct (get_col df "tenure") as [tn|] eqn:Htn; [|discriminate].
  cbn [result_bind].
  destruct (series_truediv tc (replace zero NaN tn)) as [avg|] eqn:Havg;
    [|discriminate].
  cbn [result_bind]. rewrite !get_col_set_col_ne by discriminate.
  destruct (get_col df "contract_type") as [ct|] eqn:Hct; [|discriminate].
  intros [= <-]. by exists isv, tc, tn, ct, avg.
Qed.

Lemma engineered_avg df isv avg ct :
  get_col (engineered df isv avg ct) "avg_monthly_charge" = Some avg.
Proof.
  unfold engineered. rewrite get_col_set_col_ne by discriminate.
  apply get_col_set_col_eq.
Qed.

Lemma engineered_short df isv avg ct :
  get_col (engineered df isv avg ct) "is_short_contract" =
  Some (apply short_contract ct).
Proof. unfold engineered. apply get_col_set_col_eq. Qed.

Lemma engineered_other df isv avg ct c :
  c ≠ "internet_service" → c ≠ "avg_monthly_charge" → c ≠ "is_short_contract" →
  get_col (engineered df isv avg ct) c = get_col df c.
Proof.
  intros. unfold engineered. by rewrite !get_col_set_col_ne by done.
Qed.

Lemma labels_set_col_mono df c' s c :
  c ∈ labels df → c ∈ labels (set_col df c' s).
Proof.
  intros Hc. rewrite labels_set_col. destruct (has_column df c'); [done|].
  apply elem_of_app. by left.
Qed.

Lemma engineered_labels df isv avg ct c :
  c ∈ labels df → c ∈ labels (engineered df isv avg ct).
Proof.
  intros Hc. unfold engineered. by do 3 apply labels_set_col_mono.
Qed.

Lemma nrows_engineered df isv avg ct : nrows (engineered df isv avg ct) = nrows df.
Proof. unfold engineered. by rewrite !nrows_set_col. Qed.

(** The frame returned by [preprocess_input], when [engineer] succeeds. *)
Lemma aligned_Ok df df3 refs :
  engineer df = Ok df3 →
  ∃ df4 out,
    get_dummies num_str df3 encoded = Ok df4 ∧
    select (fill_missing refs df4) refs = Ok out ∧
    aligned num_str df refs = Ok out.
Proof.
  intros He. unfold aligned. rewrite He. cbn [result_bind].
  apply engineer_inv in He as (isv & tc & tn & ct & avg & His & _ & _ & Hct & _ & ->).
  rewrite get_dummies_Ok.
  2,3: apply engineered_labels, get_col_is_Some; eauto.
  cbn [result_bind]. eexists _, _. split; [done|].
  rewrite select_Ok by (intros c Hc; by apply fill_missing_complete).
  done.
Qed.

(** A successful call of [preprocess_input], in full. *)
Lemma preprocess_input_Ok (σ : heap) r df df3 refs :
  σ !! r = Some df → engineer df = Ok df3 →
  ∃ filled out,
    aligned num_str df refs = Ok out ∧
    preprocess_input num_str r refs σ =
      (Ok (S (List.length σ)), <[r := df3]> σ ++ [filled; out]).
Proof.
  intros H He.
  destruct (aligned_Ok df df3 refs He) as (df4 & out & _ & _ & Hal).
  destruct (preprocess_input_run num_str σ r df refs H) as (d & l & Hσ & Hres).
  rewrite Hal in Hres. destruct Hres as (Hr & Hd & filled & ->).
  rewrite He in Hd. injection Hd as <-.
  exists filled, out. split; [done|].
  destruct (preprocess_input num_str r refs σ) as [res σ']. simpl in *. congruence.
Qed.

Lemma lookup_returned (σ : heap) r d (filled out : DataFrame) :
  (<[r := d]> σ ++ [filled; out]) !! S (List.length σ) = Some out.
Proof.
  rewrite lookup_app_r by (rewrite length_insert; lia).
  rewrite length_insert. by replace (S (List.length σ) - List.length σ) with 1 by lia.
Qed.

(** A successful run of cell 4, in full. *)
Lemma load_and_preprocess_Ok (σ : heap) r df df3 churn :
  σ !! r = Some df → engineer df = Ok df3 → get_col df "churn" = Some churn →
  ∃ df4,
    get_dummies num_str df3 encoded = Ok df4 ∧
    load_and_preprocess num_str r σ =
      (Ok (List.length σ),
       <[r := df3]> σ ++ [set_col df4 "churn" (series_map churn_codes churn)]).
Proof.
  intros H He Hch.
  destruct (aligned_Ok df df3 [] He) as (df4 & _ & Hgd & _).
  exists df4. split; [done|].
  assert (Htr : trained num_str df =
                Ok (set_col df4 "churn" (series_map churn_codes churn))).
  { unfold trained. rewrite He. cbn [result_bind]. rewrite Hgd.
    cbn [result_bind]. unfold col.
    apply engineer_inv in He as (isv & tc & tn & ct & avg & _ & _ & _ & _ & _ & ->).
    rewrite (get_col_get_dummies _ _ _ "churn" Hgd).
    - by rewrite engineered_other, Hch by discriminate.
    - rewrite elem_of_encoded. intros [?|?]; discriminate.
    - apply engineered_labels, get_col_is_Some. eauto. }
  destruct (load_and_preprocess_run num_str σ r df H) as (d & l & Hσ & Hres).
  rewrite Htr in Hres. destruct Hres as (Hr & Hd & ->).
  rewrite He in Hd. injection Hd as <-.
  destruct (load_and_preprocess num_str r σ) as [res σ']. simpl in *. congruence.
Qed.

Lemma lookup_trained (σ : heap) r d (df5 : DataFrame) :
  (<[r := d]> σ ++ [df5]) !! List.length σ = Some df5.
Proof.
  rewrite lookup_app_r by (rewrite length_insert; lia).
  by rewrite length_insert, Nat.sub_diag.
Qed.

End Paths.

(** ** The claims *)

Section Claims.
Variable num_str : cell → string.
Local Open Scope list_scope.

Lemma numeric_lookup (s : Series) i x :
  numeric s = true → s !! i = Some x → is_number x = true.
Proof.
  unfold numeric. rewrite forallb_forall. intros Hs Hi.
  apply Hs, list_elem_of_In, list_elem_of_lookup. eauto.
Qed.

Lemma raw_columns_engineer df isv tc tn ct :
  raw_columns df isv tc tn ct →
  ∃ avg, engineer df = Ok (engineered df isv avg ct) ∧ avg_rule tc tn avg.
Proof.
  intros (His & Htc & Htn & Hct & Hntc & Hntn).
  destruct (avg_column_numeric tc tn Hntc Hntn) as (avg & Havg & _ & Hrows).
  exists avg. split; [by eapply engineer_Ok|].
  intros i total t Hi Ht.
  destruct (Hrows i total t Hi Ht) as (v & Hv & Hlook).
  pose proof (numeric_lookup _ _ _ Hntc Hi) as Hnum.
  split.
  - intros ->. rewrite Hlook. f_equal.
    replace (py_eq zero zero) with true in Hv by done.
    destruct total; simpl in *; congruence.
  - intros q x -> Hq ->. rewrite Hlook. f_equal.
    assert (Hq0 : q ≠ 0%Qc).
    { intros ->. by apply Qclt_not_eq in Hq. }
    unfold py_eq, zero in Hv.
    rewrite bool_decide_eq_false_2 in Hv by congruence.
    simpl in Hv. rewrite bool_decide_eq_false_2 in Hv by done. congruence.
Qed.

Lemma lookup_map {A B} (f : A → B) (l : list A) i :
  map f l !! i = f <$> l !! i.
Proof.
  revert i. induction l as [|a l IH]; intros [|i]; simpl; auto.
Qed.

Lemma short_contract_cases x :
  (short_contract x = zero ∨ short_contract x = one) ∧
  (short_contract x = one ↔ x = Str "month-to-month").
Proof.
  unfold short_contract, py_eq.
  destruct x as [|q|b|s]; try (split; [by left|split; discriminate]).
  case_bool_decide as Hs.
  - split; [by right|]. by split.
  - split; [by left|]. split; [discriminate|done].
Qed.

Lemma short_contract_rule (ct : Series) : short_rule ct (apply short_contract ct).
Proof.
  intros i x Hi. exists (short_contract x). unfold apply.
  rewrite lookup_map, Hi. split; [done|]. apply short_contract_cases.
Qed.

Lemma churn_codes_rule (churn : Series) :
  label_rule churn (series_map churn_codes churn).
Proof.
  intros i v Hi. unfold series_map. rewrite lookup_map, Hi. simpl.
  split_and!.
  - by intros ->.
  - by intros ->.
  - intros Hno Hyes. f_equal. unfold dict_get, churn_codes, py_eq. simpl.
    destruct v as [|q|b|s]; try done.
    rewrite !bool_decide_eq_false_2 by congruence. done.
Qed.

(** A column of the engineered frame other than the encoded ones is a
    column of the frame that cell 4 leaves in [df]. *)
Lemma training_column (σ : heap) r df df3 churn c s :
  σ !! r = Some df → engineer df = Ok df3 → get_col df "churn" = Some churn →
  c ∉ encoded → c ≠ "churn" → get_col df3 c = Some s →
  ∃ r' σ' df',
    load_and_preprocess num_str r σ = (Ok r', σ') ∧ σ' !! r' = Some df' ∧
    get_col df' c = Some s.
Proof.
  intros H He Hch Hc Hne Hs.
  destruct (load_and_preprocess_Ok num_str σ r df df3 churn H He Hch)
    as (df4 & Hgd & Hrun).
  eexists _, _, _. split_and!; [exact Hrun | apply lookup_trained |].
  rewrite get_col_set_col_ne by done.
  rewrite (get_col_get_dummies _ _ _ _ Hgd); [done..|].
  apply get_col_is_Some. eauto.
Qed.

(** The [churn] column that cell 4 leaves is the mapped raw column. *)
Lemma training_churn (σ : heap) r df df3 churn :
  σ !! r = Some df → engineer df = Ok df3 → get_col df "churn" = Some churn →
  ∃ r' σ' df',
    load_and_preprocess num_str r σ = (Ok r', σ') ∧ σ' !! r' = Some df' ∧
    get_col df' "churn" = Some (series_map churn_codes churn).
Proof.
  intros H He Hch.
  destruct (load_and_preprocess_Ok num_str σ r df df3 churn H He Hch)
    as (df4 & Hgd & Hrun).
  eexists _, _, _. split_and!; [exact Hrun | apply lookup_trained |].
  apply get_col_set_col_eq.
Qed.

(** A reference column that is a column of the engineered frame, other
    than the encoded ones, is that column in the frame returned by
    [preprocess_input]. *)
Lemma inference_column (σ : heap) r df df3 refs c s :
  σ !! r = Some df → engineer df = Ok df3 →
  c ∈ refs → c ∉ encoded → get_col df3 c = Some s →
  ∃ r' σ' out,
    preprocess_input num_str r refs σ = (Ok r', σ') ∧ σ' !! r' = Some out ∧
    get_col out c = Some s.
Proof.
  intros H He Hc Henc Hs.
  destruct (preprocess_input_Ok num_str σ r df df3 refs H He)
    as (filled & out & Hal & Hrun).
  destruct (aligned_Ok num_str df df3 refs He) as (df4 & out' & Hgd & Hsel & Hal').
  rewrite Hal in Hal'. injection Hal' as <-.
  eexists _, _, _. split_and!; [exact Hrun | apply lookup_returned |].
  assert (H4 : get_col df4 c = Some s).
  { rewrite (get_col_get_dummies _ _ _ _ Hgd); [done..|].
    apply get_col_is_Some. eauto. }
  rewrite (get_col_select _ _ _ _ Hsel Hc).
  rewrite get_col_fill_missing_present; [done|].
  apply get_col_is_Some. eauto.
Qed.

(** C5: in cell 4 and in [preprocess_input] alike, on a table with numbers
    in [total_charges] and [tenure], the computation returns (no error is
    raised) and the [avg_monthly_charge] of a row with tenure 0 is NaN, the
    missing value, and not 0; with a positive tenure it is
    [total_charges / tenure]. *)
Theorem avg_monthly_charge_policy :
  (∀ (σ : heap) r df isv tc tn ct churn,
     σ !! r = Some df → raw_columns df isv tc tn ct →
     get_col df "churn" = Some churn →
     ∃ r' σ' df' avg,
       load_and_preprocess num_str r σ = (Ok r', σ') ∧ σ' !! r' = Some df' ∧
       get_col df' "avg_monthly_charge" = Some avg ∧ avg_rule tc tn avg) ∧
  (∀ (σ : heap) r df isv tc tn ct refs,
     σ !! r = Some df → raw_columns df isv tc tn ct →
     "avg_monthly_charge" ∈ refs →
     ∃ r' σ' out avg,
       preprocess_input num_str r refs σ = (Ok r', σ') ∧ σ' !! r' = Some out ∧
       get_col out "avg_monthly_charge" = Some avg ∧ avg_rule tc tn avg).
Proof.
  split.
  - intros σ r df isv tc tn ct churn H Hraw Hch.
    destruct (raw_columns_engineer _ _ _ _ _ Hraw) as (avg & He & Hrule).
    destruct (training_column σ r df _ churn "avg_monthly_charge" avg H He Hch)
      as (r' & σ' & df' & Hrun & Hlook & Hcol).
    + rewrite elem_of_encoded. intros [?|?]; discriminate.
    + discriminate.
    + apply engineered_avg.
    + by exists r', σ', df', avg.
  - intros σ r df isv tc tn ct refs H Hraw Hin.
    destruct (raw_columns_engineer _ _ _ _ _ Hraw) as (avg & He & Hrule).
    destruct (inference_column σ r df _ refs "avg_monthly_charge" avg H He Hin)
      as (r' & σ' & out & Hrun & Hlook & Hcol).
    + rewrite elem_of_encoded. intros [?|?]; discriminate.
    + apply engineered_avg.
    + by exists r', σ', out, avg.
Qed.

(** C8: in cell 4 and in [preprocess_input] alike, the [is_short_contract]
    of every row is 0 or 1, and it is 1 exactly when the [contract_type] of
    the row is the string month-to-month; a string in another case, another
    value or a missing value gives 0. *)
Theorem is_short_contract_indicator :
  (∀ (σ : heap) r df isv tc tn ct churn,
     σ !! r = Some df → raw_columns df isv tc tn ct →
     get_col df "churn" = Some churn →
     ∃ r' σ' df' isc,
       load_and_preprocess num_str r σ = (Ok r', σ') ∧ σ' !! r' = Some df' ∧
       get_col df' "is_short_contract" = Some isc ∧ short_rule ct isc) ∧
  (∀ (σ : heap) r df isv tc tn ct refs,
     σ !! r = Some df → raw_columns df isv tc tn ct →
     "is_short_contract" ∈ refs →
     ∃ r' σ' out isc,
       preprocess_input num_str r refs σ = (Ok r', σ') ∧ σ' !! r' = Some out ∧
       get_col out "is_short_contract" = Some isc ∧ short_rule ct isc).
Proof.
  split.
  - intros σ r df isv tc tn ct churn H Hraw Hch.
    destruct (raw_columns_engineer _ _ _ _ _ Hraw) as (avg & He & _).
    destruct (training_column σ r df _ churn "is_short_contract"
                (apply short_contract ct) H He Hch)
      as (r' & σ' & df' & Hrun & Hlook & Hcol).
    + rewrite elem_of_encoded. intros [?|?]; discriminate.
    + discriminate.
    + apply engineered_short.
    + exists r', σ', df', (apply short_contract ct).
      split_and!; [done..|]. apply short_contract_rule.
  - intros σ r df isv tc tn ct refs H Hraw Hin.
    destruct (raw_columns_engineer _ _ _ _ _ Hraw) as (avg & He & _).
    destruct (inference_column σ r df _ refs "is_short_contract"
                (apply short_contract ct) H He Hin)
      as (r' & σ' & out & Hrun & Hlook & Hcol).
    + rewrite elem_of_encoded. intros [?|?]; discriminate.
    + apply engineered_short.
    + exists r', σ', out, (apply short_contract ct).
      split_and!; [done..|]. apply short_contract_rule.
Qed.

(** C10: on a table that cell 4 can preprocess, the mapping of the [churn]
    column does not raise, and it maps No to 0, Yes to 1 and every other
    value (another string, a number, a missing value) to NaN: the value is
    neither kept nor rejected. *)
Theorem churn_label_mapping (σ : heap) r df isv tc tn ct churn :
  σ !! r = Some df → raw_columns df isv tc tn ct →
  get_col df "churn" = Some churn →
  ∃ r' σ' df' codes,
    load_and_preprocess num_str r σ = (Ok r', σ') ∧ σ' !! r' = Some df' ∧
    get_col df' "churn" = Some codes ∧ label_rule churn codes.
Proof.
  intros H Hraw Hch.
  destruct (raw_columns_engineer _ _ _ _ _ Hraw) as (avg & He & _).
  destruct (training_churn σ r df _ churn H He Hch)
    as (r' & σ' & df' & Hrun & Hlook & Hcol).
  exists r', σ', df', (series_map churn_codes churn).
  split_and!; [done..|]. apply churn_codes_rule.
Qed.

(** What a call of [predict_churn_for_client] returns and what it does to
    the store: the old frames stay, new ones are added. *)
Lemma predict_run `{Estimator E} (model : E) (σ : heap) r df refs :
  σ !! r = Some df →
  (predict_churn_for_client num_str model r refs σ).1 =
    result_bind (aligned num_str df refs) (λ new_client,
    result_bind (churn_probability model new_client) (λ prob,
    Ok ("Customer Churn Probability: " ++ format_percent prob)%string)) ∧
  ∃ l, (predict_churn_for_client num_str model r refs σ).2 = σ ++ l.
Proof.
  intros Hr.
  destruct (aligned_row_run num_str σ r df refs Hr) as (Hres & l & Hσ).
  revert Hres Hσ. unfold predict_churn_for_client, aligned_row.
  rewrite !bind_run.
  destruct (copy r σ) as [[c|e] σ0]; cbn [fst snd].
  2:{ intros <- ->. split; [done|by eexists]. }
  rewrite !bind_run.
  destruct (preprocess_input num_str c refs σ0) as [[nc|e] σ1]; cbn [fst snd].
  2:{ intros <- ->. split; [done|by eexists]. }
  rewrite !bind_run.
  destruct (deref nc σ1) as [[features|e] σ2]; cbn [fst snd]; intros <- ->;
    cbn [result_bind].
  2:{ split; [done|by eexists]. }
  rewrite !bind_run, lift_run. unfold churn_probability.
  destruct (predict_proba model features) as [proba|e]; cbn [result_bind fst snd].
  2:{ split; [done|by eexists]. }
  rewrite !bind_run, lift_run.
  destruct (column_of 1 proba) as [positive|e]; cbn [result_bind fst snd].
  2:{ split; [done|by eexists]. }
  rewrite !bind_run, lift_run.
  destruct (item 0 positive) as [prob|e]; cbn [result_bind fst snd];
    (split; [done|by eexists]).
Qed.

(** C9: a successful [preprocess_input] leaves, at the address it was
    given, the caller's frame with [internet_service] filled and the columns
    [avg_monthly_charge] and [is_short_contract] set; and after any call of
    [predict_churn_for_client], returning or raising, the frame at the
    caller's address is the one that was there before. *)
Theorem raw_record_unchanged :
  (∀ (σ : heap) r df isv tc tn ct refs,
     σ !! r = Some df → raw_columns df isv tc tn ct →
     ∃ r' σ' avg,
       series_truediv tc (replace zero NaN tn) = Ok avg ∧
       preprocess_input num_str r refs σ = (Ok r', σ') ∧
       σ' !! r = Some (engineered df isv avg ct)) ∧
  (∀ E (Est : Estimator E) (model : E) (σ : heap) r df refs,
     σ !! r = Some df →
     (predict_churn_for_client num_str model r refs σ).2 !! r = Some df).
Proof.
  split.
  - intros σ r df isv tc tn ct refs Hr Hraw.
    destruct (raw_columns_engineer _ _ _ _ _ Hraw) as (avg & He & _).
    destruct (preprocess_input_Ok num_str σ r df _ refs Hr He)
      as (filled & out & _ & Hrun).
    exists (S (List.length σ)), (<[r := engineered df isv avg ct]> σ ++ [filled; out]), avg.
    split_and!; [|done|].
    + apply engineer_inv in He
        as (isv' & tc' & tn' & ct' & avg' & ? & ? & ? & ? & Havg & Heq).
      destruct Hraw as (? & ? & ? & ? & _).
      assert (tc' = tc) as -> by congruence.
      assert (tn' = tn) as -> by congruence.
      rewrite Havg. f_equal.
      pose proof (f_equal (λ d, get_col d "avg_monthly_charge") Heq) as Hcol.
      simpl in Hcol. rewrite !engineered_avg in Hcol. congruence.
    + rewrite lookup_app_l by (rewrite length_insert; by eapply lookup_lt_Some).
      by eapply lookup_insert_same.
  - intros E Est model σ r df refs Hr.
    destruct (predict_run model σ r df refs Hr) as (_ & l & ->).
    by rewrite lookup_app_l by by eapply lookup_lt_Some.
Qed.

Lemma engineer_needs_required df df3 c :
  engineer df = Ok df3 → c ∈ required → c ∈ labels df.
Proof.
  intros He Hc.
  apply engineer_inv in He as (isv & tc & tn & ct & avg & ? & ? & ? & ? & _).
  unfold required in Hc. rewrite !elem_of_cons, elem_of_nil in Hc.
  destruct Hc as [->|[->|[->|[->|[]]]]]; apply get_col_is_Some; eauto.
Qed.

(** C3, as the code has it: for a raw record without one of the four
    required columns, [predict_churn_for_client] never returns (so no
    probability is reported); when the numeric fields that are present hold
    numbers, it raises KeyError with the label of a required column that
    the record lacks. *)
Theorem missing_field_raises `{Estimator E} (model : E) (σ : heap) r df refs c :
  σ !! r = Some df → c ∈ required → c ∉ labels df →
  (∀ text σ', predict_churn_for_client num_str model r refs σ ≠ (Ok text, σ')) ∧
  (numeric_fields df = true →
   ∃ c' σ', (c' ∈ required) ∧ (c' ∉ labels df) ∧
     predict_churn_for_client num_str model r refs σ = (Raise (KeyError c'), σ')).
Proof.
  intros Hr Hc Habs.
  destruct (predict_run model σ r df refs Hr) as (Hres & _).
  split.
  - intros text σ' Hrun. rewrite Hrun in Hres. simpl in Hres.
    unfold aligned in Hres.
    destruct (engineer df) as [df3|e] eqn:He; [|discriminate].
    by apply Habs, (engineer_needs_required df df3).
  - intros Hnum.
    destruct (find (λ c, negb (has_column df c)) required) as [c'|] eqn:Hf.
    + apply find_absent_Some in Hf as Hc'. destruct Hc' as [Hin Hout].
      exists c', (predict_churn_for_client num_str model r refs σ).2.
      split_and!; [done..|].
      unfold aligned in Hres. rewrite (engineer_missing df c' Hnum Hf) in Hres.
      simpl in Hres.
      destruct (predict_churn_for_client num_str model r refs σ). simpl in *.
      congruence.
    + exfalso. apply Habs. by apply (proj1 (find_absent_None df required) Hf).
Qed.

(** C7: a second call of [predict_churn_for_client] with the same model,
    raw record and reference columns, made in the store that the first call
    left, builds the same aligned row and gives the same outcome (the same
    text with the same probability, or the same exception). *)
Theorem predict_idempotent `{Estimator E} (model : E) (σ : heap) r df refs :
  σ !! r = Some df →
  let first := predict_churn_for_client num_str model r refs σ in
  let second := predict_churn_for_client num_str model r refs first.2 in
  second.1 = first.1 ∧
  (aligned_row num_str r refs first.2).1 = (aligned_row num_str r refs σ).1.
Proof.
  intros Hr first second.
  destruct (predict_run model σ r df refs Hr) as (Hres1 & l & Hσ1).
  assert (Hr1 : first.2 !! r = Some df).
  { unfold first. rewrite Hσ1. by rewrite lookup_app_l by by eapply lookup_lt_Some. }
  destruct (predict_run model first.2 r df refs Hr1) as (Hres2 & _).
  split.
  - unfold second, first in *. by rewrite Hres1, Hres2.
  - destruct (aligned_row_run num_str σ r df refs Hr) as [-> _].
    by destruct (aligned_row_run num_str first.2 r df refs Hr1) as [-> _].
Qed.

(** *** One-row records *)

Lemma avg_length (tc tn avg : Series) :
  series_truediv tc (replace zero NaN tn) = Ok avg →
  List.length avg = min (List.length tc) (List.length tn).
Proof.
  unfold series_truediv, replace. intros Havg.
  apply result_all_Ok in Havg.
  apply (f_equal (@List.length _)) in Havg.
  rewrite length_zip_with, !length_map in Havg. lia.
Qed.

Lemma wf_get_col df c s :
  wf df → get_col df c = Some s → List.length s = nrows df.
Proof.
  unfold wf, get_col. intros Hwf Hs.
  apply fmap_Some in Hs as ([k v] & Hf & ->).
  apply find_some in Hf as [Hin _].
  rewrite Forall_forall in Hwf. apply (Hwf (k, v)). by apply list_elem_of_In.
Qed.

Lemma wf_engineered df isv tc tn ct avg :
  wf df →
  get_col df "internet_service" = Some isv →
  get_col df "total_charges" = Some tc →
  get_col df "tenure" = Some tn →
  get_col df "contract_type" = Some ct →
  series_truediv tc (replace zero NaN tn) = Ok avg →
  wf (engineered df isv avg ct).
Proof.
  intros Hwf His Htc Htn Hct Havg. unfold engineered.
  repeat apply wf_set_col; rewrite ?nrows_set_col; try done.
  - unfold fillna. rewrite length_map. by eapply wf_get_col.
  - rewrite (avg_length _ _ _ Havg).
    rewrite (wf_get_col _ _ _ Hwf Htc), (wf_get_col _ _ _ Hwf Htn). lia.
  - unfold apply. rewrite length_map. by eapply wf_get_col.
Qed.

Lemma NoDup_labels_filter (P : string * Series → Prop) `{!∀ x, Decision (P x)}
    (cols : list (string * Series)) :
  NoDup (map fst cols) → NoDup (map fst (filter P cols)).
Proof.
  induction cols as [|[k v] cols IH]; [done|]. simpl.
  intros Hnd. apply NoDup_cons in Hnd as [Hk Hnd].
  rewrite filter_cons. case_decide; simpl; [|by apply IH].
  apply NoDup_cons. split; [|by apply IH].
  intros Hin. apply Hk.
  apply list_elem_of_fmap in Hin as ([k' v'] & -> & Hin).
  apply list_elem_of_filter in Hin as [_ Hin].
  apply list_elem_of_fmap. by exists (k', v').
Qed.

Lemma labels_filter_kept (cols : list (string * Series)) c :
  c ∈ map fst (filter (λ kv, fst kv ∉ encoded) cols) ↔
  c ∈ map fst cols ∧ c ∉ encoded.
Proof.
  rewrite !list_elem_of_fmap. split.
  - intros ([k v] & -> & Hin). apply list_elem_of_filter in Hin as [Hk Hin].
    split; [by exists (k, v)|done].
  - intros (([k v] & -> & Hin) & Hk). exists (k, v).
    split; [done|]. by apply list_elem_of_filter.
Qed.

(** C6: for a one-row record with distinct labels, the four required
    columns and numbers in the numeric ones, and for any list of reference
    columns, [preprocess_input] returns a frame whose columns are the
    reference columns, as many and in the same order; a reference column
    that the transformed record has (a column of the engineered record other
    than the two encoded ones) carries its value, and every other reference
    column is the single cell 0, whatever the categories of the record. *)
Theorem aligned_to_reference_columns (σ : heap) r df isv tc tn ct refs :
  σ !! r = Some df → raw_columns df isv tc tn ct →
  wf df → nrows df = 1 → NoDup (labels df) →
  ∃ r' σ' out df3,
    preprocess_input num_str r refs σ = (Ok r', σ') ∧ σ' !! r' = Some out ∧
    labels out = refs ∧
    List.length (columns out) = List.length refs ∧
    engineer df = Ok df3 ∧
    ∀ c, c ∈ refs →
      get_col out c =
      if bool_decide (c ∈ labels df3 ∧ c ∉ encoded) then get_col df3 c
      else Some [zero].
Proof.
  intros Hr Hraw Hwf Hrows Hnd.
  destruct (raw_columns_engineer _ _ _ _ _ Hraw) as (avg & He & _).
  set (df3 := engineered df isv avg ct) in *.
  destruct (preprocess_input_Ok num_str σ r df df3 refs Hr He)
    as (filled & out & Hal & Hrun).
  exists (S (List.length σ)), (<[r := df3]> σ ++ [filled; out]), out, df3.
  split; [done|]. split; [apply lookup_returned|].
  (* the frame after get_dummies *)
  assert (Hwf3 : wf df3).
  { destruct Hraw as (? & ? & ? & ? & _).
    apply engineer_inv in He as (? & tc' & tn' & ? & avg' & ? & ? & ? & ? & Ha & Heq).
    rewrite Heq. eapply wf_engineered; eauto. }
  assert (Hrows3 : nrows df3 = 1) by (unfold df3; by rewrite nrows_engineered).
  assert (Hnd3 : NoDup (labels df3)).
  { unfold df3, engineered. by do 3 apply NoDup_labels_set_col. }
  assert (Hgd : get_dummies num_str df3 encoded =
                Ok (mkDF (nrows df3) (filter (λ kv, fst kv ∉ encoded) (columns df3)))).
  { destruct Hraw as (His & _ & _ & Hct & _).
    apply get_dummies_one_row; [done|lia|..];
      apply engineered_labels, get_col_is_Some; eauto. }
  set (df4 := mkDF _ _) in Hgd.
  assert (Hnd4 : NoDup (labels df4)).
  { unfold df4, labels; simpl. by apply NoDup_labels_filter. }
  unfold aligned in Hal. rewrite He in Hal. cbn [result_bind] in Hal.
  rewrite Hgd in Hal. cbn [result_bind] in Hal.
  pose proof Hal as Hsel.
  rewrite select_NoDup in Hal.
  2: by apply NoDup_fill_missing.
  2: intros c Hc; by apply fill_missing_complete.
  injection Hal as Hout.
  split_and!.
  - rewrite <- Hout. unfold labels; simpl. rewrite map_map. simpl. apply map_id.
  - rewrite <- Hout. simpl. by rewrite length_map.
  - done.
  - intros c Hc. rewrite (get_col_select _ _ _ _ Hsel Hc).
    case_bool_decide as Hpresent.
    + destruct Hpresent as [Hin Henc].
      rewrite get_col_fill_missing_present.
      * by apply (get_col_get_dummies num_str df3 df4).
      * unfold df4, labels; simpl. by apply labels_filter_kept.
    + rewrite get_col_fill_missing_absent; [|done|].
      * unfold df4. cbn [nrows]. by rewrite Hrows3.
      * unfold df4, labels; simpl. by rewrite labels_filter_kept.
Qed.

End Claims.

(** ** The loop of cell 8 *)

Section Loop.
Context `{Estimator E} `{Metrics E}.
Local Open Scope list_scope.

Lemma for_each_app {S A} (l1 l2 : list A) (body : A → M S unit) σ :
  for_each (l1 ++ l2) body σ =
  match for_each l1 body σ with
  | (Ok _, σ') => for_each l2 body σ'
  | (Raise e, σ') => (Raise e, σ')
  end.
Proof.
  revert σ. induction l1 as [|x l1 IH]; intros σ; [done|].
  cbn [app for_each]. rewrite !bind_run.
  destruct (body x σ) as [[[]|e] σ']; [apply IH|done].
Qed.

(** An entry whose fit raises: the banner is printed, then the exception
    leaves [evaluate]. *)
Lemma evaluate_fit_raises (d : dataset) name (m : E) e (st : session E) :
  fit m (X_train d) (y_train d) = Raise e →
  evaluate d (name, m) st =
  (Raise e, mkSession (models st) (stdout st ++ [banner name])).
Proof.
  intros Hfit. unfold evaluate. rewrite bind_run. unfold print at 1.
  by rewrite bind_run, lift_run, Hfit.
Qed.

(** C3 as stated fails: a record without [contract_type] whose
    [total_charges] is text ends with TypeError, raised by the division
    before [contract_type] is read, and not with the missing-field error. *)
Lemma missing_field_not_reported :
  ¬ missing_field_reported whole_str (Fitted (Q2Qc (734 # 1000))) reference_columns.
Proof.
  intros Hrep.
  assert (Hreq : "contract_type" ∈ required) by by_evaluation.
  assert (Habs : "contract_type" ∉ labels text_charges) by by_evaluation.
  destruct (Hrep [text_charges] 0%nat text_charges "contract_type" eq_refl Hreq Habs)
    as (c & _ & _ & Hout).
  assert (Hrun : (predict_churn_for_client whole_str (Fitted (Q2Qc (734 # 1000))) 0
                    reference_columns [text_charges]).1 = Raise TypeError)
    by by_evaluation.
  rewrite Hrun in Hout. discriminate.
Qed.

(** C4, as the code has it: when the fit of an entry raises, the exception
    leaves the loop.  The entries before it have been evaluated, the banner
    of the failing entry is the last line printed, the run ends with the
    exception, and the entries after it are neither fitted nor evaluated:
    the state is the one left by the entries before, plus the banner. *)
Theorem fit_failure_stops_the_loop (d : dataset) (st st' : session E)
    pre name (m : E) post e :
  models st = pre ++ (name, m) :: post →
  for_each pre (evaluate d) st = (Ok tt, st') →
  fit m (X_train d) (y_train d) = Raise e →
  train_and_evaluate d st =
  (Raise e, mkSession (models st') (stdout st' ++ [banner name])).
Proof.
  intros Hmodels Hpre Hfit. unfold train_and_evaluate.
  rewrite Hmodels, for_each_app, Hpre. cbn [for_each].
  by rewrite bind_run, (evaluate_fit_raises _ _ _ _ _ Hfit).
Qed.

End Loop.

(** C1: the notebook's example, evaluated.  The reference columns of the
    table [survey] are the eight of [reference_columns]; for [new_client]
    the aligned row has [is_short_contract] 1 and [avg_monthly_charge] 50,
    and every indicator column is 0, the one of fiber optic included: a
    single row has one level per encoded column, which [get_dummies] drops,
    and the loop then fills the column with 0.  With a classifier that
    answers 0.734 the call reports 73.40%. *)
Theorem new_client_example :
  (schema_of whole_str 0 [survey]).1 = Ok reference_columns ∧
  (aligned_row whole_str 0 reference_columns [new_client]).1 = Ok new_client_row ∧
  at_ new_client_row 0 "is_short_contract" = Some one ∧
  at_ new_client_row 0 "avg_monthly_charge" = Some (int 50) ∧
  at_ new_client_row 0 "internet_service_fiber optic" = Some zero ∧
  (predict_churn_for_client whole_str (Fitted (Q2Qc (734 # 1000))) 0
     reference_columns [new_client]).1 = Ok "Customer Churn Probability: 73.40%".
Proof. split_and!; by_evaluation. Qed.

(** C2: the two paths disagree on the first row of [survey].  As a row of
    the training table its fiber optic indicator is 1; given alone to
    [preprocess_input] and aligned to the columns of the training features,
    the same record has the indicator 0. *)
Theorem training_and_inference_disagree :
  ∃ X row,
    (features_of whole_str 0 [survey]).1 = Ok X ∧
    (aligned_row whole_str 0 (labels X) [iloc_row survey 0]).1 = Ok row ∧
    at_ X 0 "internet_service_fiber optic" = Some one ∧
    at_ row 0 "internet_service_fiber optic" = Some zero.
Proof.
  eexists _, _. split_and!.
  - vm_compute. reflexivity.
  - vm_compute. reflexivity.
  - by_evaluation.
  - by_evaluation.
Qed.

(** C4 as stated fails: with a second entry that cannot be fitted, the
    third entry is never evaluated and its banner is not printed. *)
Lemma failure_not_isolated : ¬ failure_isolated toy_data toy_session.
Proof.
  intros Hiso.
  assert (Hgb : banner "Gradient Boosting" ∉
                stdout (train_and_evaluate toy_data toy_session).2)
    by by_evaluation.
  apply Hgb.
  assert (Hlr : ("Logistic Regression", Broken) ∈ models toy_session)
    by by_evaluation.
  assert (Hin : ("Gradient Boosting", Fresh (Q2Qc (1 # 4))) ∈ models toy_session)
    by by_evaluation.
  apply (Hiso _ _ Hlr (ex_intro _ _ eq_refl) _ _ Hin). discriminate.
Qed.

(** The record with tenure 0: no error, and the average is missing. *)
Example brand_new_average :
  ∃ row,
    (aligned_row whole_str 0 reference_columns [brand_new]).1 = Ok row ∧
    at_ row 0 "avg_monthly_charge" = Some NaN ∧
    at_ row 0 "internet_service_unknown" = Some zero.
Proof.
  eexists. split_and!; [vm_compute; reflexivity | by_evaluation..].
Qed.

(** *** Instances *)

Lemma avg_monthly_charge_policy_brand_new :
  ∃ r' σ' out avg,
    preprocess_input whole_str 0 reference_columns [brand_new] = (Ok r', σ') ∧
    σ' !! r' = Some out ∧
    get_col out "avg_monthly_charge" = Some avg ∧
    avg_rule [int 70] [int 0] avg.
Proof.
  eapply (proj2 (avg_monthly_charge_policy whole_str)).
  - reflexivity.
  - repeat split; reflexivity.
  - by_evaluation.
Defined.

Lemma is_short_contract_indicator_survey :
  ∃ r' σ' df' isc,
    load_and_preprocess whole_str 0 [survey] = (Ok r', σ') ∧
    σ' !! r' = Some df' ∧
    get_col df' "is_short_contract" = Some isc ∧
    short_rule [Str "month-to-month"; Str "one-year"; Str "two-year"] isc.
Proof.
  eapply (proj1 (is_short_contract_indicator whole_str)).
  - reflexivity.
  - repeat split; reflexivity.
  - reflexivity.
Defined.

Lemma churn_label_mapping_survey :
  ∃ r' σ' df' codes,
    load_and_preprocess whole_str 0 [survey] = (Ok r', σ') ∧
    σ' !! r' = Some df' ∧
    get_col df' "churn" = Some codes ∧
    label_rule [Str "Yes"; Str "No"; Str "no"] codes.
Proof.
  eapply (churn_label_mapping whole_str).
  - reflexivity.
  - repeat split; reflexivity.
  - reflexivity.
Defined.

Lemma raw_record_unchanged_new_client :
  (predict_churn_for_client whole_str (Fitted (Q2Qc (734 # 1000))) 0
     reference_columns [new_client]).2 !! 0 = Some new_client.
Proof.
  apply (proj2 (raw_record_unchanged whole_str)). reflexivity.
Defined.

Lemma missing_field_raises_no_contract :
  (∀ text σ',
     predict_churn_for_client whole_str (Fitted (Q2Qc (734 # 1000))) 0
       reference_columns [no_contract] ≠ (Ok text, σ')) ∧
  (numeric_fields no_contract = true →
   ∃ c' σ', (c' ∈ required) ∧ (c' ∉ labels no_contract) ∧
     predict_churn_for_client whole_str (Fitted (Q2Qc (734 # 1000))) 0
       reference_columns [no_contract] = (Raise (KeyError c'), σ')).
Proof.
  apply (missing_field_raises whole_str _ [no_contract] 0 no_contract
           reference_columns "contract_type").
  - reflexivity.
  - by_evaluation.
  - by_evaluation.
Defined.

Lemma predict_idempotent_new_client :
  let first := predict_churn_for_client whole_str (Fitted (Q2Qc (734 # 1000))) 0
                 reference_columns [new_client] in
  let second := predict_churn_for_client whole_str (Fitted (Q2Qc (734 # 1000))) 0
                  reference_columns first.2 in
  second.1 = first.1 ∧
  (aligned_row whole_str 0 reference_columns first.2).1 =
  (aligned_row whole_str 0 reference_columns [new_client]).1.
Proof.
  apply (predict_idempotent whole_str _ [new_client] 0 new_client). reflexivity.
Defined.

Lemma aligned_to_reference_columns_new_client :
  ∃ r' σ' out df3,
    preprocess_input whole_str 0 reference_columns [new_client] = (Ok r', σ') ∧
    σ' !! r' = Some out ∧
    labels out = reference_columns ∧
    List.length (columns out) = List.length reference_columns ∧
    engineer new_client = Ok df3 ∧
    ∀ c, c ∈ reference_columns →
      get_col out c =
      if bool_decide (c ∈ labels df3 ∧ c ∉ encoded) then get_col df3 c
      else Some [zero].
Proof.
  eapply (aligned_to_reference_columns whole_str).
  - reflexivity.
  - repeat split; reflexivity.
  - repeat constructor.
  - reflexivity.
  - by_evaluation.
Defined.

Lemma fit_failure_stops_the_loop_toy :
  ∃ st',
    for_each [("Random Forest", Fresh (Q2Qc (3 # 4)))] (evaluate toy_data) toy_session
      = (Ok tt, st') ∧
    train_and_evaluate toy_data toy_session =
    (Raise (LibraryError "did not converge"),
     mkSession (models st') (stdout st' ++ [banner "Logistic Regression"])%list).
Proof.
  eexists. split; [vm_compute; reflexivity|].
  eapply (fit_failure_stops_the_loop toy_data toy_session _
            [("Random Forest", Fresh (Q2Qc (3 # 4)))]
            "Logistic Regression" Broken
            [("Gradient Boosting", Fresh (Q2Qc (1 # 4)))]).
  - reflexivity.
  - vm_compute. reflexivity.
  - reflexivity.
Defined.

(** * More of the notebook *)

(** ** The levels of an encoded column *)

Lemma string_leb_cases a b :
  String.leb a b = true ↔ a = b ∨ String_as_OT.lt a b.
Proof.
  unfold String.leb. destruct (String.compare a b) eqn:Hc.
  - apply String_as_OT.cmp_eq in Hc. by split; [left|].
  - apply String_as_OT.cmp_lt in Hc. by split; [right|].
  - split; [discriminate|]. intros [->|Hlt].
    + assert (String_as_OT.cmp b b = Eq) as Heq by by apply String_as_OT.cmp_eq.
      unfold String_as_OT.cmp in Heq. congruence.
    + apply String_as_OT.cmp_lt in Hlt. unfold String_as_OT.cmp in Hlt. congruence.
Qed.

Lemma string_leb_trans a b c :
  String.leb a b = true → String.leb b c = true → String.leb a c = true.
Proof.
  rewrite !string_leb_cases. intros [->|Hab] [->|Hbc]; auto.
  right. by eapply String_as_OT.lt_trans.
Qed.

Lemma level_leb_total a b : level_leb a b = true ∨ level_leb b a = true.
Proof.
  destruct a as [|x|[]|s], b as [|y|[]|t]; simpl; auto.
  - destruct (Qclt_le_dec y x) as [Hlt|Hle].
    + right. apply bool_decide_eq_true. by apply Qclt_le_weak.
    + left. by apply bool_decide_eq_true.
  - apply String.leb_total.
Qed.

Lemma level_leb_trans a b c :
  level_leb a b = true → level_leb b c = true → level_leb a c = true.
Proof.
  destruct a as [|x|[]|s], b as [|y|[]|t], c as [|z|[]|u]; simpl;
    try done.
  - rewrite !bool_decide_eq_true. apply Qcle_trans.
  - apply string_leb_trans.
Qed.

Lemma elem_of_insert_level v ls x :
  x ∈ insert_level v ls ↔ x = v ∨ x ∈ ls.
Proof.
  induction ls as [|l ls IH]; simpl.
  - rewrite list_elem_of_singleton, elem_of_nil. tauto.
  - case_bool_decide as Hv.
    + subst l. rewrite elem_of_cons. tauto.
    + destruct (level_leb v l).
      * rewrite !elem_of_cons. tauto.
      * rewrite !elem_of_cons, IH. tauto.
Qed.

Lemma level_leb_antisym a b :
  level_leb a b = true → level_leb b a = true → a = b.
Proof.
  destruct a as [|x|[]|s], b as [|y|[]|t]; simpl; try done.
  - rewrite !bool_decide_eq_true. intros H1 H2. f_equal. by apply Qcle_antisym.
  - intros H1 H2. f_equal. by apply String.leb_antisym.
Qed.

Lemma level_lt_trans a b c : level_lt a b → level_lt b c → level_lt a c.
Proof.
  intros [Hab Hne] [Hbc Hne']. split; [by eapply level_leb_trans|].
  intros ->. apply Hne. by apply level_leb_antisym.
Qed.

Lemma insert_level_sorted v ls :
  StronglySorted level_lt ls → StronglySorted level_lt (insert_level v ls).
Proof.
  induction ls as [|l ls IH]; simpl; intros Hs.
  - by repeat constructor.
  - case_bool_decide as Hv; [done|].
    apply StronglySorted_inv in Hs as [Hs Hl].
    destruct (level_leb v l) eqn:Hvl.
    + assert (Hlt : level_lt v l) by done.
      constructor; [by constructor|].
      constructor; [done|].
      eapply Forall_impl; [exact Hl|]. intros x Hx. by eapply level_lt_trans.
    + constructor; [by apply IH|].
      apply Forall_forall. intros x Hx.
      apply elem_of_insert_level in Hx as [->|Hx].
      * split; [|congruence].
        destruct (level_leb_total v l) as [H|H]; [congruence|done].
      * rewrite Forall_forall in Hl. by apply Hl.
Qed.

Lemma levels_of_fold (s : Series) acc x :
  x ∈ fold_left (λ acc v, match v with NaN => acc | _ => insert_level v acc end) s acc
  ↔ x ∈ acc ∨ (x ∈ s ∧ x ≠ NaN).
Proof.
  revert acc. induction s as [|v s IH]; intros acc; simpl.
  - rewrite elem_of_nil. tauto.
  - rewrite IH, elem_of_cons. destruct (decide (v = NaN)) as [->|Hv].
    + split; [intros [?|[? ?]]; auto | intros [?|[[->|?] ?]]; auto; done].
    + replace (match v with NaN => acc | _ => insert_level v acc end)
        with (insert_level v acc) by by destruct v.
      rewrite elem_of_insert_level. split.
      * intros [[->|?]|[? ?]]; auto.
      * intros [?|[[->|?] ?]]; auto.
Qed.

Lemma levels_of_fold_sorted (s : Series) acc :
  StronglySorted level_lt acc →
  StronglySorted level_lt
    (fold_left (λ acc v, match v with NaN => acc | _ => insert_level v acc end) s acc).
Proof.
  revert acc. induction s as [|v s IH]; intros acc Hs; simpl; [done|].
  apply IH. destruct v; auto using insert_level_sorted.
Qed.

Lemma StronglySorted_lt_NoDup ls : StronglySorted level_lt ls → NoDup ls.
Proof.
  induction 1 as [|a l Hs IH Ha]; constructor; [|done].
  intros Hin. rewrite Forall_forall in Ha. by destruct (Ha _ Hin) as [_ []].
Qed.

(** The levels that [get_dummies] finds in a column are the values of
    the column other than NaN, each once, in strictly ascending order
    (numbers by value and before strings, strings by code point). *)
Theorem levels_of_spec (data : Series) :
  (∀ v, v ∈ levels_of data ↔ v ∈ data ∧ v ≠ NaN) ∧
  NoDup (levels_of data) ∧
  StronglySorted level_lt (levels_of data).
Proof.
  assert (Hs : StronglySorted level_lt (levels_of data))
    by (apply levels_of_fold_sorted; constructor).
  split_and!; [|by apply StronglySorted_lt_NoDup|done].
  intros v. unfold levels_of. rewrite levels_of_fold, elem_of_nil. tauto.
Qed.

(** ** Indicator columns *)

Section Indicators.
Variable num_str : cell → string.
Local Open Scope list_scope.

Lemma one_ne_zero : one ≠ zero.
Proof. by_evaluation. Qed.

Lemma get_dummies_1d_tail pfx (data : Series) :
  get_dummies_1d num_str pfx data =
  map (λ l, ((pfx ++ "_" ++ level_str num_str l)%string,
             map (λ v, if py_eq v l then one else zero) data))
      (tail (levels_of data)).
Proof.
  unfold get_dummies_1d. by destruct (levels_of data) as [|l0 [|l1 rest]].
Qed.

Lemma py_eq_level v l : l ≠ NaN → py_eq v l = true ↔ v = l.
Proof.
  intros Hl. unfold py_eq.
  destruct v; rewrite ?bool_decide_eq_true; try done.
Qed.

Lemma indicator_cell (data : Series) i v l :
  data !! i = Some v → l ≠ NaN →
  let col := map (λ v, if py_eq v l then one else zero) data in
  (col !! i = Some one ↔ v = l) ∧ (col !! i = Some zero ↔ v ≠ l).
Proof.
  intros Hi Hl col. unfold col. rewrite lookup_map, Hi. simpl.
  pose proof (py_eq_level v l Hl) as Heq.
  destruct (py_eq v l).
  - assert (v = l) by by apply Heq.
    split; split; try done; intros [= H']; by destruct one_ne_zero.
  - assert (v ≠ l) by (intros ?; by apply Heq in H).
    split; split; try done; intros [= H']; by destruct one_ne_zero.
Qed.

Lemma tail_levels_not_NaN (data : Series) l :
  l ∈ tail (levels_of data) → l ≠ NaN.
Proof.
  intros Hl. assert (Hin : l ∈ levels_of data).
  { destruct (levels_of data); [done|]. by right. }
  by apply (proj1 (levels_of_spec data)) in Hin as [_ ?].
Qed.

(** X1: the indicator columns that [get_dummies] makes for a column, read
    in row [i] whose value is [v].  There is one column per level but the
    first, labelled prefix, underscore, level, with one cell per row; the
    column of level [l] has 1 in the row exactly when [v] is [l] and 0
    otherwise; all the indicators of the row are 0 exactly when [v] is
    missing or is the first level; and no row has two indicators at 1. *)
Theorem indicators_decode pfx (data : Series) i v :
  data !! i = Some v →
  let block := get_dummies_1d num_str pfx data in
  (∀ j l, tail (levels_of data) !! j = Some l →
     ∃ col, block !! j = Some ((pfx ++ "_" ++ level_str num_str l)%string, col) ∧
            List.length col = List.length data ∧
            (col !! i = Some one ↔ v = l) ∧ (col !! i = Some zero ↔ v ≠ l)) ∧
  List.length block = List.length (tail (levels_of data)) ∧
  ((∀ kv, kv ∈ block → kv.2 !! i = Some zero) ↔
   v = NaN ∨ head (levels_of data) = Some v) ∧
  (∀ j j' kv kv', block !! j = Some kv → block !! j' = Some kv' →
     kv.2 !! i = Some one → kv'.2 !! i = Some one → j = j').
Proof.
  intros Hi block. unfold block. rewrite get_dummies_1d_tail.
  destruct (levels_of_spec data) as (Hmem & Hnd & _).
  split_and!.
  - intros j l Hj. eexists. rewrite lookup_map, Hj. split; [done|].
    split; [by rewrite length_map|].
    apply indicator_cell; [done|].
    apply (tail_levels_not_NaN data). apply list_elem_of_lookup. eauto.
  - by rewrite length_map.
  - split.
    + intros Hzero. destruct (decide (v = NaN)) as [|Hv]; [by left|]. right.
      assert (Hin : v ∈ levels_of data).
      { apply Hmem. split; [|done]. apply list_elem_of_lookup. eauto. }
      destruct (levels_of data) as [|l0 rest]; [by apply elem_of_nil in Hin|].
      apply elem_of_cons in Hin as [->|Hin]; [done|]. exfalso.
      simpl in Hzero.
      assert (Hcell : map (λ x, if py_eq x v then one else zero) data !! i = Some zero).
      { apply (Hzero ((pfx ++ "_" ++ level_str num_str v)%string,
                      map (λ x, if py_eq x v then one else zero) data)).
        apply list_elem_of_fmap. by exists v. }
      apply (indicator_cell data i v v Hi Hv) in Hcell. done.
    + intros Hv [name col] Hkv.
      apply list_elem_of_fmap in Hkv as (l & [= -> ->] & Hl). simpl.
      pose proof (tail_levels_not_NaN _ _ Hl) as HlN.
      apply (indicator_cell data i v l Hi HlN).
      destruct Hv as [->|Hhead]; [congruence|].
      destruct (levels_of data) as [|l0 rest]; [done|].
      simpl in Hhead, Hl. injection Hhead as ->.
      apply NoDup_cons in Hnd as [Hnotin _]. intros ->. done.
  - intros j j' kv kv' Hj Hj' Hone Hone'.
    rewrite lookup_map in Hj, Hj'.
    destruct (tail (levels_of data) !! j) as [l|] eqn:Hl; [|done].
    destruct (tail (levels_of data) !! j') as [l'|] eqn:Hl'; [|done].
    simpl in Hj, Hj'. injection Hj as <-. injection Hj' as <-. simpl in *.
    assert (Hnd' : NoDup (tail (levels_of data))).
    { destruct (levels_of data); [done|]. by apply NoDup_cons in Hnd as [_ ?]. }
    assert (l ≠ NaN)
      by (apply (tail_levels_not_NaN data), list_elem_of_lookup; eauto).
    assert (l' ≠ NaN)
      by (apply (tail_levels_not_NaN data), list_elem_of_lookup; eauto).
    apply (indicator_cell data i v l Hi) in Hone; [|done].
    apply (indicator_cell data i v l' Hi) in Hone'; [|done].
    eapply NoDup_lookup; eauto. congruence.
Qed.

(** X2: the level that [drop_first] drops is the least one: every level
    that keeps an indicator column is strictly above it. *)
Theorem dropped_level_is_least (data : Series) l0 l :
  head (levels_of data) = Some l0 → l ∈ tail (levels_of data) →
  level_leb l0 l = true ∧ l0 ≠ l.
Proof.
  intros Hhead Hl. destruct (levels_of_spec data) as (_ & _ & Hs).
  destruct (levels_of data) as [|l0' rest]; [done|].
  simpl in *. injection Hhead as ->.
  apply StronglySorted_inv in Hs as [_ Hall].
  rewrite Forall_forall in Hall. by apply Hall.
Qed.

End Indicators.

(** ** The feature matrix and the reference columns *)

Section Schema.
Variable num_str : cell → string.
Local Open Scope list_scope.

Lemma labels_filter_notin (cs : list string) (cols : list (string * Series)) :
  map fst (filter (λ kv, fst kv ∉ cs) cols) = filter (λ c, c ∉ cs) (map fst cols).
Proof.
  induction cols as [|[k v] cols IH]; [done|].
  rewrite filter_cons. simpl. rewrite filter_cons.
  case_decide; simpl; by rewrite IH.
Qed.

Lemma get_col_filter_notin (cs : list string) df c :
  c ∉ cs →
  get_col (mkDF (nrows df) (filter (λ kv, fst kv ∉ cs) (columns df))) c =
  get_col df c.
Proof.
  intros Hc. unfold get_col. simpl. f_equal.
  apply (find_filter_keep (λ kv, fst kv ∉ cs)). by intros kv ->.
Qed.

(** X3: cell 6 builds [X] from [df] without the columns [customer_id] and
    [churn]: the other columns stay, in their order and with their values,
    and [df] itself is not changed.  When the table has no [customer_id]
    column, or no [churn] column, the cell raises KeyError. *)
Theorem feature_matrix_spec (σ : heap) r df :
  σ !! r = Some df →
  match (feature_matrix r σ).1 with
  | Ok X =>
      "customer_id" ∈ labels df ∧ "churn" ∈ labels df ∧
      ∃ dfX, (feature_matrix r σ).2 !! X = Some dfX ∧
        labels dfX = filter (λ c, c ∉ ["customer_id"; "churn"]) (labels df) ∧
        nrows dfX = nrows df ∧
        (∀ c, c ≠ "customer_id" → c ≠ "churn" → get_col dfX c = get_col df c) ∧
        (feature_matrix r σ).2 !! r = Some df
  | Raise e =>
      (e = KeyError "customer_id" ∧ "customer_id" ∉ labels df) ∨
      (e = KeyError "churn" ∧ "customer_id" ∈ labels df ∧ "churn" ∉ labels df)
  end.
Proof.
  intros Hr. unfold feature_matrix. rewrite (pd_drop_run _ _ _ _ Hr).
  unfold drop. cbn [find].
  destruct (has_column df "customer_id") eqn:Hid; cbn [negb].
  - apply has_column_true in Hid.
    destruct (has_column df "churn") eqn:Hch; cbn [negb fst snd].
    + apply has_column_true in Hch. split_and!; [done..|].
      eexists. split; [apply lookup_fresh|]. split_and!.
      * apply labels_filter_notin.
      * done.
      * intros c Hc1 Hc2. apply get_col_filter_notin.
        rewrite !elem_of_cons, elem_of_nil. tauto.
      * rewrite lookup_app_l; [done|]. by eapply lookup_lt_Some.
    + apply has_column_false in Hch. by right.
  - apply has_column_false in Hid. by left.
Qed.

Lemma labels_engineered_fresh df isv avg ct :
  "internet_service" ∈ labels df →
  "avg_monthly_charge" ∉ labels df → "is_short_contract" ∉ labels df →
  labels (engineered df isv avg ct) =
  labels df ++ ["avg_monthly_charge"; "is_short_contract"].
Proof.
  intros His Havg Hisc. unfold engineered.
  rewrite !labels_set_col.
  rewrite (proj2 (has_column_true df "internet_service") His).
  rewrite (proj2 (has_column_false (set_col df "internet_service" _)
                    "avg_monthly_charge")).
  2:{ rewrite labels_set_col,
        (proj2 (has_column_true df "internet_service") His). done. }
  rewrite (proj2 (has_column_false (set_col (set_col df "internet_service" _)
                    "avg_monthly_charge" _) "is_short_contract")).
  2:{ rewrite !labels_set_col,
        (proj2 (has_column_true df "internet_service") His).
      rewrite (proj2 (has_column_false (set_col df "internet_service" _)
                        "avg_monthly_charge")).
      - rewrite elem_of_app, list_elem_of_singleton. intros [?|?]; done.
      - rewrite labels_set_col,
          (proj2 (has_column_true df "internet_service") His). done. }
  by rewrite <- app_assoc.
Qed.

Lemma dummy_label_not_raw pfx (data : Series) c :
  pfx = "contract_type" ∨ pfx = "internet_service" →
  c ∈ map fst (get_dummies_1d num_str pfx data) →
  c ∉ ["customer_id"; "churn"; "contract_type"; "internet_service"].
Proof.
  intros Hpfx Hc. rewrite get_dummies_1d_tail, map_map in Hc.
  apply list_elem_of_fmap in Hc as (l & -> & _). simpl.
  rewrite !elem_of_cons, elem_of_nil.
  destruct Hpfx as [-> | ->]; simpl; intros [H|[H|[H|[H|[]]]]]; discriminate H.
Qed.

Lemma filter_all {A} (P : A → Prop) `{!∀ x, Decision (P x)} (l : list A) :
  Forall P l → filter P l = l.
Proof.
  induction 1 as [|x l Hx Hl IH]; [done|].
  rewrite filter_cons, decide_True by done. by rewrite IH.
Qed.

(** X4: the reference columns.  For a table with distinct labels that has
    the raw columns, [customer_id] and [churn], and no column named like
    the two derived ones, cells 4 and 6 and [list(X.columns)] succeed and
    give, in this order: the raw columns other than [customer_id], [churn],
    [contract_type] and [internet_service]; [avg_monthly_charge];
    [is_short_contract]; the indicator labels of [contract_type]; the
    indicator labels of [internet_service] after the fill. *)
Theorem reference_columns_schema (σ : heap) r df isv tc tn ct churn :
  σ !! r = Some df → raw_columns df isv tc tn ct →
  get_col df "churn" = Some churn → "customer_id" ∈ labels df →
  NoDup (labels df) →
  "avg_monthly_charge" ∉ labels df → "is_short_contract" ∉ labels df →
  (schema_of num_str r σ).1 =
  Ok (filter (λ c, c ∉ ["customer_id"; "churn"; "contract_type"; "internet_service"])
        (labels df) ++
      ["avg_monthly_charge"; "is_short_contract"] ++
      map fst (get_dummies_1d num_str "contract_type" ct) ++
      map fst (get_dummies_1d num_str "internet_service"
                 (fillna (Str "unknown") isv))).
Proof.
  intros Hr Hraw Hch Hid Hnd Havg Hisc.
  destruct (raw_columns_engineer _ _ _ _ _ Hraw) as (avg & He & _).
  destruct Hraw as (His & Htc & Htn & Hct & _).
  set (df3 := engineered df isv avg ct) in *.
  destruct (load_and_preprocess_Ok num_str σ r df df3 churn Hr He Hch)
    as (df4 & Hgd & Hrun).
  assert (Hlab3 : labels df3 = labels df ++ ["avg_monthly_charge"; "is_short_contract"]).
  { apply labels_engineered_fresh; [|done..].
    apply get_col_is_Some. by rewrite His. }
  assert (Hnd3 : NoDup (labels df3)).
  { unfold df3, engineered. by do 3 apply NoDup_labels_set_col. }
  assert (Hct3 : get_col df3 "contract_type" = Some ct).
  { unfold df3. by rewrite engineered_other by discriminate. }
  assert (His3 : get_col df3 "internet_service" = Some (fillna (Str "unknown") isv)).
  { unfold df3, engineered. rewrite !get_col_set_col_ne by discriminate.
    apply get_col_set_col_eq. }
  rewrite get_dummies_Ok in Hgd
    by (apply get_col_is_Some; by rewrite ?Hct3, ?His3).
  rewrite (filter_label_NoDup _ _ _ Hnd3 Hct3),
          (filter_label_NoDup _ _ _ Hnd3 His3) in Hgd.
  cbn [app flat_map fst snd] in Hgd. rewrite app_nil_r in Hgd.
  injection Hgd as <-.
  set (D := get_dummies_1d num_str "contract_type" ct ++
            get_dummies_1d num_str "internet_service" (fillna (Str "unknown") isv)) in *.
  set (df4 := mkDF _ _) in *.
  assert (Hlab4 : labels df4 =
    filter (λ c, c ∉ encoded) (labels df3) ++ map fst D).
  { unfold df4, labels. cbn [columns]. rewrite map_app. f_equal.
    apply labels_filter_notin. }
  set (df5 := set_col df4 "churn" (series_map churn_codes churn)) in *.
  assert (Hch4 : "churn" ∈ labels df4).
  { rewrite Hlab4, elem_of_app. left. apply list_elem_of_filter.
    split; [rewrite elem_of_encoded; intros [?|?]; discriminate|].
    rewrite Hlab3, elem_of_app. left. apply get_col_is_Some. by rewrite Hch. }
  assert (Hlab5 : labels df5 = labels df4).
  { unfold df5. rewrite labels_set_col.
    by rewrite (proj2 (has_column_true df4 "churn") Hch4). }
  (* cell 6 *)
  unfold schema_of. rewrite (bind_ok _ _ _ _ _ Hrun), bind_run.
  unfold feature_matrix. rewrite (pd_drop_run _ _ _ _ (lookup_trained σ r df3 df5)).
  assert (Hid5 : "customer_id" ∈ labels df5).
  { rewrite Hlab5, Hlab4, elem_of_app. left. apply list_elem_of_filter.
    split; [rewrite elem_of_encoded; intros [?|?]; discriminate|].
    rewrite Hlab3, elem_of_app. by left. }
  unfold drop. cbn [find].
  rewrite (proj2 (has_column_true df5 "customer_id") Hid5).
  rewrite (proj2 (has_column_true df5 "churn")) by by rewrite Hlab5.
  cbn [negb]. unfold column_list.
  rewrite (bind_ok _ _ _ _ _ (deref_run _ _ _ (lookup_fresh _ _))).
  unfold ret. cbn [fst]. f_equal.
  unfold labels at 1. cbn [columns]. rewrite labels_filter_notin.
  fold (labels df5). rewrite Hlab5, Hlab4, Hlab3.
  rewrite !filter_app.
  assert (HD : filter (λ c, c ∉ ["customer_id"; "churn"]) (map fst D) = map fst D).
  { apply filter_all, Forall_forall. intros c Hc. unfold D in Hc.
    rewrite map_app, elem_of_app in Hc.
    assert (Hraw : c ∉ ["customer_id"; "churn"; "contract_type"; "internet_service"]).
    { destruct Hc as [Hc|Hc].
      - apply (dummy_label_not_raw "contract_type" ct); auto.
      - apply (dummy_label_not_raw "internet_service"
                 (fillna (Str "unknown") isv)); auto. }
    rewrite !elem_of_cons, elem_of_nil in *. tauto. }
  rewrite HD. unfold D. rewrite map_app, <- !app_assoc. f_equal.
  rewrite list_filter_filter. apply list_filter_iff. intros c.
  rewrite elem_of_encoded, !elem_of_cons, elem_of_nil. tauto.
Qed.

End Schema.

(** ** What a single record keeps of its categories *)

Section Categories.
Variable num_str : cell → string.
Local Open Scope list_scope.

Lemma kept_set_col_encoded df c s :
  c ∈ encoded → kept (set_col df c s) = kept df.
Proof.
  intros Hc. unfold kept, set_col.
  destruct (has_column df c); cbn [nrows columns]; f_equal.
  - induction (columns df) as [|[k v] cols IH]; [done|].
    cbn [map]. rewrite !filter_cons. cbn [fst].
    destruct (String.eqb_spec k c) as [->|Hne]; cbn [fst].
    + by rewrite !decide_False by (intros H; by apply H).
    + case_decide; by rewrite IH.
  - rewrite filter_app, filter_cons. cbn [fst].
    rewrite decide_False by (intros H; by apply H).
    by rewrite filter_nil, app_nil_r.
Qed.

Lemma kept_set_col_other df c s :
  c ∉ encoded → kept (set_col df c s) = set_col (kept df) c s.
Proof.
  intros Hc. unfold set_col.
  assert (Hhas : has_column (kept df) c = has_column df c).
  { unfold has_column, kept, labels. cbn [columns].
    apply bool_decide_ext. rewrite labels_filter_kept. tauto. }
  rewrite Hhas. unfold kept.
  destruct (has_column df c); cbn [nrows columns]; f_equal.
  - induction (columns df) as [|[k v] cols IH]; [done|].
    cbn [map]. rewrite !filter_cons. cbn [fst].
    destruct (String.eqb_spec k c) as [->|Hne]; cbn [fst].
    + rewrite !decide_True by done. cbn [map fst].
      rewrite String.eqb_refl. by rewrite IH.
    + case_decide; cbn [map fst]; [|done].
      destruct (String.eqb_spec k c); [done|]. by rewrite IH.
  - rewrite filter_app, filter_cons. cbn [fst].
    by rewrite decide_True, filter_nil by done.
Qed.

Lemma kept_engineered df isv avg ct :
  kept (engineered df isv avg ct) =
  set_col (set_col (kept df) "avg_monthly_charge" avg)
          "is_short_contract" (apply short_contract ct).
Proof.
  unfold engineered.
  rewrite !kept_set_col_other
    by (rewrite elem_of_encoded; intros [?|?]; discriminate).
  rewrite kept_set_col_encoded; [done|]. rewrite elem_of_encoded. auto.
Qed.

(** The frame returned for a record of at most one row: the kept columns of
    the engineered record, aligned. *)
Lemma aligned_one_row df isv tc tn ct avg refs :
  raw_columns df isv tc tn ct → wf df → (nrows df ≤ 1)%nat →
  series_truediv tc (replace zero NaN tn) = Ok avg →
  aligned num_str df refs =
  select (fill_missing refs (kept (engineered df isv avg ct))) refs.
Proof.
  intros (His & Htc & Htn & Hct & _) Hwf Hrows Havg. unfold aligned.
  rewrite (engineer_Ok df isv tc tn ct avg) by done.
  fold (engineered df isv avg ct). cbn [result_bind].
  rewrite get_dummies_one_row; [done|..].
  - by eapply wf_engineered.
  - by rewrite nrows_engineered.
  - apply engineered_labels, get_col_is_Some. by rewrite Hct.
  - apply engineered_labels, get_col_is_Some. by rewrite His.
Qed.

(** X5: for a record of one row, the aligned feature row does not depend
    on [internet_service] at all, and depends on [contract_type] only
    through being month-to-month or not: replacing both cells by others with
    the same [is_short_contract] gives the same row (so, with the same
    model, the same reported probability). *)
Theorem aligned_row_ignores_categories (σ σ' : heap) r r' df isv tc tn ct isv' ct' refs :
  σ !! r = Some df → raw_columns df isv tc tn ct → wf df → nrows df = 1 →
  List.length isv' = 1 → List.length ct' = 1 →
  apply short_contract ct' = apply short_contract ct →
  σ' !! r' = Some (set_col (set_col df "internet_service" isv') "contract_type" ct') →
  (aligned_row num_str r' refs σ').1 = (aligned_row num_str r refs σ).1.
Proof.
  intros Hr Hraw Hwf Hrows Hlen1 Hlen2 Hshort Hr'.
  set (df' := set_col (set_col df "internet_service" isv') "contract_type" ct') in *.
  destruct (aligned_row_run num_str σ r df refs Hr) as [-> _].
  destruct (aligned_row_run num_str σ' r' df' refs Hr') as [-> _].
  pose proof Hraw as (His & Htc & Htn & Hct & Hntc & Hntn).
  destruct (avg_column_numeric tc tn Hntc Hntn) as (avg & Havg & _).
  assert (Hraw' : raw_columns df' isv' tc tn ct').
  { unfold df'. split_and!; try done.
    - rewrite get_col_set_col_ne by discriminate. apply get_col_set_col_eq.
    - by rewrite !get_col_set_col_ne by discriminate.
    - by rewrite !get_col_set_col_ne by discriminate.
    - apply get_col_set_col_eq. }
  assert (Hwf' : wf df').
  { unfold df'. repeat apply wf_set_col; rewrite ?nrows_set_col; congruence. }
  assert (Hrows' : nrows df' = 1) by (unfold df'; by rewrite !nrows_set_col).
  rewrite (aligned_one_row df isv tc tn ct avg) by (done || lia).
  rewrite (aligned_one_row df' isv' tc tn ct' avg) by (done || lia).
  rewrite !kept_engineered, Hshort. unfold df'.
  by rewrite !kept_set_col_encoded by (rewrite elem_of_encoded; auto).
Qed.

End Categories.

(** ** The reported probability *)

Section Report.
Variable num_str : cell → string.
Local Open Scope list_scope.

Lemma column_of_short j (a : list (list Qc)) :
  Exists (λ row, row !! j = None) a → column_of j a = Raise IndexError.
Proof.
  unfold column_of. induction 1 as [row a Hrow|row a _ IH]; cbn [map result_all].
  - by rewrite Hrow.
  - destruct (row !! j); [|done]. cbn [result_bind]. by rewrite IH.
Qed.

Lemma column_of_long j (a : list (list Qc)) :
  Forall (λ row, is_Some (row !! j)) a →
  column_of j a = Ok (map (λ row, default 0%Qc (row !! j)) a).
Proof.
  unfold column_of. induction 1 as [|row a [x Hx] _ IH]; cbn [map result_all]; [done|].
  rewrite Hx. cbn [result_bind]. by rewrite IH.
Qed.

(** X6: what [predict_churn_for_client] reports once the record is aligned
    and the model has answered with the array [proba].  With a first row
    and two entries at least in every row, the text gives the second entry
    of the first row (further rows are not reported).  With no row, or with
    a row that has no second entry (a model fitted on one class), the call
    raises IndexError. *)
Theorem predict_reports_first_row `{Estimator E} (model : E) (σ : heap) r df
    refs features proba :
  σ !! r = Some df →
  (aligned_row num_str r refs σ).1 = Ok features →
  predict_proba model features = Ok proba →
  let outcome := (predict_churn_for_client num_str model r refs σ).1 in
  (∀ row rest p,
     proba = row :: rest → Forall (λ row, is_Some (row !! 1)) proba →
     row !! 1 = Some p →
     outcome = Ok ("Customer Churn Probability: " ++ format_percent p)%string) ∧
  (proba = [] → outcome = Raise IndexError) ∧
  (Exists (λ row, row !! 1 = None) proba → outcome = Raise IndexError).
Proof.
  intros Hr Hrow Hproba outcome. unfold outcome.
  destruct (predict_run num_str model σ r df refs Hr) as [-> _].
  destruct (aligned_row_run num_str σ r df refs Hr) as [Hal _].
  rewrite Hrow in Hal. rewrite <- Hal. cbn [result_bind].
  unfold churn_probability. rewrite Hproba. cbn [result_bind].
  split_and!.
  - intros row rest p -> Hall Hp.
    rewrite (column_of_long _ _ Hall). cbn [result_bind map].
    unfold item. cbn. by rewrite Hp.
  - by intros ->.
  - intros Hshort. by rewrite (column_of_short _ _ Hshort).
Qed.

End Report.

(** ** The printed percentage *)

Lemma this_Q2Qc (q : Q) : this (Q2Qc q) == q.
Proof. apply Qred_correct. Qed.

Lemma round_half_even_near (q : Qc) :
  (this q - (1 # 2) <= inject_Z (round_half_even q))%Q ∧
  (inject_Z (round_half_even q) <= this q + (1 # 2))%Q.
Proof.
  unfold round_half_even.
  pose proof (Qfloor_le q) as Hlo. pose proof (Qlt_floor q) as Hhi.
  set (f := Qfloor q) in *.
  assert (Hcmp : (q - Qc_of_Z f ?= Q2Qc (1 # 2))%Qc =
                 (this q - inject_Z f ?= 1 # 2)%Q).
  { unfold Qccompare. apply Qcompare_comp.
    - unfold Qcminus, Qcplus, Qcopp, Qc_of_Z. rewrite !this_Q2Qc.
      reflexivity.
    - reflexivity. }
  rewrite Hcmp. clear Hcmp. rewrite inject_Z_plus in Hhi.
  change (inject_Z 1) with 1%Q in Hhi.
  destruct (Qcompare_spec (this q - inject_Z f) (1 # 2)) as [Heq|Hlt|Hgt];
    [destruct (Z.even f)|..];
    rewrite ?inject_Z_plus; change (inject_Z 1) with 1%Q; split; lra.
Qed.

(** The rounding of a product that is at most 100: the double exists and is
    within half a unit in the last place, which is at most [2^-46] there. *)
Lemma nearest_double_near (q : Q) :
  (0 <= q)%Q → (q <= 100)%Q →
  ∃ x, nearest_double q = Some x ∧
       (q - 2 ^ (-47) <= x)%Q ∧ (x <= q + 2 ^ (-47))%Q.
Proof.
  intros H0 H100. unfold nearest_double.
  set (N := Qfloor (q * 2 ^ 1074)).
  set (e := Z.max (Z.log2 N - 1126) (-1074)).
  assert (He : (e <= -46)%Z).
  { assert (N <= Qfloor (100 * 2 ^ 1074))%Z as HN.
    { apply Qfloor_resp_le. apply Qmult_le_compat_r; [done|]. by vm_compute. }
    apply Z.log2_le_mono in HN.
    assert (Z.log2 (Qfloor (100 * 2 ^ 1074)) = 1080%Z) as Hlog by by vm_compute.
    rewrite Hlog in HN. unfold e. lia. }
  assert (HE : (0 < 2 ^ e)%Q) by by apply Qpower_0_lt.
  assert (HE' : (2 ^ e <= 2 ^ (-46))%Q).
  { apply Qpower_le_compat_l; [done|]. by vm_compute. }
  set (E := (2 ^ e)%Q) in *.
  set (m := round_half_even (Q2Qc (q / E))).
  destruct (round_half_even_near (Q2Qc (q / E))) as [Hlo Hhi].
  fold m in Hlo, Hhi. rewrite this_Q2Qc in Hlo, Hhi.
  set (y := (q / E)%Q) in *.
  assert (Hy : q == y * E).
  { unfold y. field. lra. }
  change (2 ^ (-46))%Q with (1 # 70368744177664)%Q in HE'.
  change (2 ^ (-47))%Q with (1 # 140737488355328)%Q.
  assert (Hnear : (q - (1 # 140737488355328) <= inject_Z m * E)%Q ∧
                  (inject_Z m * E <= q + (1 # 140737488355328))%Q).
  { rewrite Hy. split; nra. }
  destruct Hnear as [Hn1 Hn2].
  exists (inject_Z m * E)%Q. split; [|done].
  destruct (Qle_bool (2 ^ 1024) (inject_Z m * E)) eqn:Hover; [|done].
  apply Qle_bool_iff in Hover.
  assert (101 < 2 ^ 1024)%Q by by vm_compute.
  lra.
Qed.

(** X7: the text printed for a probability.  For [p] between 0 and 1 the
    percentage has no sign and its value in hundredths of a point [n] lies
    between 0 and 10000 (0.00% to 100.00%).  It is the rounding of the float
    product [100 p], not of [p]: [n] is within half a hundredth of a point
    of [100 p] up to the rounding of that product, [100 * 2^-47]. *)
Theorem format_percent_probability (p : Qc) :
  (0 ≤ p)%Qc → (p ≤ 1)%Qc →
  ∃ n : Z,
    (0 ≤ n ≤ 10000)%Z ∧
    (Qabs (inject_Z n - 10000 * this p) <= (1 # 2) + 100 * 2 ^ (-47))%Q ∧
    format_percent p =
      decimal (n / 100) ++ "." ++
      (if (n mod 100 <? 10)%Z then "0" else "") ++ decimal (n mod 100) ++ "%".
Proof.
  intros H0 H1. unfold format_percent.
  rewrite bool_decide_eq_false_2 by by apply Qcle_not_lt.
  unfold Qcle in H0, H1. cbn [this] in H0, H1.
  change (this (Q2Qc 0)) with 0%Q in H0. change (this (Q2Qc 1)) with 1%Q in H1.
  pose proof (Qabs_pos p H0) as Habs.
  destruct (nearest_double_near (100 * Qabs p)) as (x & Hx & Hlo & Hhi);
    [lra..|].
  rewrite Hx. set (n := round_half_even (Q2Qc (100 * x))).
  exists n.
  destruct (round_half_even_near (Q2Qc (100 * x))) as [Hnlo Hnhi].
  fold n in Hnlo, Hnhi. rewrite this_Q2Qc in Hnlo, Hnhi.
  change (2 ^ (-47))%Q with (1 # 140737488355328)%Q in *.
  split_and!.
  - destruct (Z_le_gt_dec 0 n) as [|Hneg]; [done|].
    assert (inject_Z n <= inject_Z (-1))%Q by (rewrite <- Zle_Qle; lia).
    change (inject_Z (-1)) with (-1)%Q in *. lra.
  - destruct (Z_le_gt_dec n 10000) as [|Hbig]; [done|].
    assert (inject_Z 10001 <= inject_Z n)%Q by (rewrite <- Zle_Qle; lia).
    change (inject_Z 10001) with 10001%Q in *. lra.
  - apply Qabs_case; intros _; lra.
  - done.
Qed.

(** The doubles nearest to 0.00125 and to 0.00065: the first product is the
    tie 0.125, printed 0.12%, and the second is above 0.065, printed 0.07%. *)
Example format_percent_float_product :
  format_percent (Q2Qc (5764607523034235 # 4611686018427387904)) = "0.12%" ∧
  format_percent (Q2Qc (1498797955988901 # 2305843009213693952)) = "0.07%".
Proof. split; by vm_compute. Qed.

(** ** The state of the train/evaluate loop *)

Section LoopState.
Context `{Estimator E} `{Metrics E}.
Local Open Scope list_scope.

Lemma extends_refl (st : session E) : extends st st.
Proof. by split. Qed.

Lemma extends_trans (st1 st2 st3 : session E) :
  extends st1 st2 → extends st2 st3 → extends st1 st3.
Proof.
  intros [Ho1 Hn1] [Ho2 Hn2]. split; [by etrans|congruence].
Qed.

Lemma keeps_ret {A} (a : A) : keeps (E:=E) (mret a).
Proof. intros st. apply extends_refl. Qed.

Lemma keeps_lift {A} (r : result A) : keeps (E:=E) (lift r).
Proof. intros st. apply extends_refl. Qed.

Lemma keeps_print line : keeps (E:=E) (print line).
Proof. intros st. split; [by apply prefix_app_r|done]. Qed.

Lemma keeps_set_model name (model : E) : keeps (set_model name model).
Proof.
  intros st. split; [done|]. simpl. rewrite map_map. apply map_ext.
  intros [k v]. simpl. by destruct (String.eqb_spec k name).
Qed.

Lemma keeps_bind {A B} (m : M (session E) A) (k : A → M (session E) B) :
  keeps m → (∀ a, keeps (k a)) → keeps (m ≫= k).
Proof.
  intros Hm Hk st. rewrite bind_run. specialize (Hm st).
  destruct (m st) as [[a|e] st1]; [|done].
  eapply extends_trans; [exact Hm|apply Hk].
Qed.

Lemma keeps_evaluate (d : dataset) entry : keeps (evaluate d entry).
Proof.
  destruct entry as [name model]. unfold evaluate.
  repeat first
    [ apply keeps_bind; [|intros ?]
    | apply keeps_print | apply keeps_lift | apply keeps_set_model
    | apply keeps_ret
    | match goal with |- keeps (if ?b then _ else _) => destruct b end ].
Qed.

Lemma keeps_for_each {A} (l : list A) (body : A → M (session E) unit) :
  (∀ x, keeps (body x)) → keeps (for_each l body).
Proof.
  intros Hbody. induction l as [|x l IH]; [apply keeps_ret|].
  cbn [for_each]. apply keeps_bind; [apply Hbody|by intros _].
Qed.

(** X8: however the loop of cell 8 ends, with or without an exception,
    every line printed before or during the run is still there, in order,
    and [models] has the same keys in the same order. *)
Theorem loop_keeps_report_and_names (d : dataset) (st : session E) :
  stdout st `prefix_of` stdout (train_and_evaluate d st).2 ∧
  map fst (models (train_and_evaluate d st).2) = map fst (models st).
Proof.
  unfold train_and_evaluate.
  apply (keeps_for_each (models st) (evaluate d) (keeps_evaluate d) st).
Qed.

Lemma same_models_bind {A B} (m : M (session E) A) (k : A → M (session E) B) :
  same_models m → (∀ a, same_models (k a)) → same_models (m ≫= k).
Proof.
  intros Hm Hk st. rewrite bind_run. specialize (Hm st).
  destruct (m st) as [[a|e] st1]; [|done]. by rewrite Hk.
Qed.

Lemma same_models_print line : same_models (E:=E) (print line).
Proof. done. Qed.

Lemma same_models_lift {A} (r : result A) : same_models (E:=E) (lift r).
Proof. done. Qed.

Lemma same_models_ret {A} (a : A) : same_models (E:=E) (mret a).
Proof. done. Qed.

Ltac same_models :=
  repeat first
    [ apply same_models_bind; [|intros ?]
    | apply same_models_print | apply same_models_lift | apply same_models_ret
    | match goal with |- same_models (if ?b then _ else _) => destruct b end ].

(** An entry that is evaluated to the end has been fitted, and the dict
    holds the fitted estimator under its name. *)
Lemma evaluate_models (d : dataset) name (m : E) (st st' : session E) :
  evaluate d (name, m) st = (Ok tt, st') →
  ∃ m', fit m (X_train d) (y_train d) = Ok m' ∧
        models st' = dict_set name m' (models st).
Proof.
  unfold evaluate. rewrite bind_run. unfold print at 1.
  rewrite bind_run, lift_run.
  destruct (fit m (X_train d) (y_train d)) as [m'|e]; [|discriminate].
  rewrite bind_run. unfold set_model at 1. intros Hrun.
  exists m'. split; [done|].
  match type of Hrun with ?rest ?st2 = _ =>
    assert (Hsame : same_models rest) by same_models;
    specialize (Hsame st2) end.
  by rewrite Hrun in Hsame.
Qed.

Lemma dict_set_absent name (m : E) (ms : list (string * E)) :
  name ∉ map fst ms → dict_set name m ms = ms.
Proof.
  unfold dict_set. induction ms as [|[k v] ms IH]; [done|]. simpl.
  intros Hn. apply not_elem_of_cons in Hn as [Hne Hn].
  destruct (String.eqb_spec k name); [congruence|]. by rewrite IH.
Qed.

Lemma loop_fits (d : dataset) (l : list (string * E)) :
  ∀ (before : list (string * E)) (st st' : session E),
    NoDup (map fst l) →
    (∀ kv, kv ∈ before → fst kv ∉ map fst l) →
    models st = before ++ l →
    for_each l (evaluate d) st = (Ok tt, st') →
    ∃ l', models st' = before ++ l' ∧ Forall2 (fitted_from d) l l'.
Proof.
  induction l as [|[name m] l IH]; intros before st st' Hnd Hbefore Hst Hrun.
  - injection Hrun as <-. exists []. by split.
  - cbn [for_each] in Hrun. rewrite bind_run in Hrun.
    destruct (evaluate d (name, m) st) as [[[]|e] st1] eqn:Hev; [|discriminate].
    apply evaluate_models in Hev as (m' & Hfit & Hst1).
    cbn [map fst] in Hnd. apply NoDup_cons in Hnd as [Hname Hnd].
    assert (Hst1' : models st1 = (before ++ [(name, m')]) ++ l).
    { rewrite Hst1, Hst. unfold dict_set. rewrite map_app. cbn [map fst].
      rewrite String.eqb_refl.
      fold (dict_set name m' before). fold (dict_set name m' l).
      rewrite !dict_set_absent, <- app_assoc; [done..|].
      intros Hin. apply list_elem_of_fmap in Hin as (kv & -> & Hkv).
      apply (Hbefore kv Hkv). by left. }
    assert (Hbefore' : ∀ kv, kv ∈ before ++ [(name, m')] → fst kv ∉ map fst l).
    { intros kv Hkv. apply elem_of_app in Hkv as [Hkv|Hkv].
      - intros Hin. apply (Hbefore kv Hkv). by right.
      - apply list_elem_of_singleton in Hkv as ->. done. }
    destruct (IH _ _ _ Hnd Hbefore' Hst1' Hrun) as (l' & Hst' & Hall).
    exists ((name, m') :: l'). split.
    + by rewrite Hst', <- app_assoc.
    + constructor; [by split|done].
Qed.

(** X9: when the loop of cell 8 ends without an exception on a dict with
    distinct keys, every estimator of [models] has been fitted on the
    training split: the dict holds, under each key and in the same order,
    the estimator that [fit] returned for it.  These are the objects that
    the importance chart and the prediction read afterwards. *)
Theorem loop_fits_every_model (d : dataset) (st st' : session E) :
  NoDup (map fst (models st)) →
  train_and_evaluate d st = (Ok tt, st') →
  Forall2 (fitted_from d) (models st) (models st').
Proof.
  intros Hnd Hrun. unfold train_and_evaluate in Hrun.
  destruct (loop_fits d (models st) [] st st' Hnd) as (l' & -> & Hall);
    try done.
  intros kv Hkv. by apply elem_of_nil in Hkv.
Qed.

End LoopState.

(** ** The importance chart *)

Section Chart.
Context `{Importances E}.
Local Open Scope list_scope.

#[local] Instance by_value_total a : Total (by_value a).
Proof.
  intros i j. unfold by_value.
  destruct (Qclt_le_dec (default 0%Qc (a !! j)) (default 0%Qc (a !! i)));
    [right; by apply Qclt_le_weak | by left].
Qed.

#[local] Instance by_value_trans a : Transitive (by_value a).
Proof. intros i j k. unfold by_value. apply Qcle_trans. Qed.

Lemma take_at_Ok {A} (d : A) (a : list A) idx x :
  take_at a idx = Ok x →
  x = map (λ i, default d (a !! i)) idx ∧ Forall (λ i, i < List.length a)%nat idx.
Proof.
  unfold take_at. revert x. induction idx as [|i idx IH]; intros x; cbn [map result_all].
  - intros [= <-]. by split.
  - destruct (a !! i) as [v|] eqn:Hi; [|discriminate]. cbn [result_bind].
    destruct (result_all _) as [l|]; [|discriminate]. cbn [result_bind].
    intros [= <-]. destruct (IH l eq_refl) as [-> Hall].
    split; [done|]. constructor; [by eapply lookup_lt_Some|done].
Qed.

Lemma map_lookup_seq {A} (d : A) (pre a : list A) :
  map (λ i, default d ((pre ++ a) !! i)) (seq (List.length pre) (List.length a)) = a.
Proof.
  revert pre. induction a as [|v a IH]; intros pre; [done|].
  cbn [List.length seq map]. rewrite lookup_app_r, Nat.sub_diag by lia.
  cbn. f_equal. specialize (IH (pre ++ [v])).
  rewrite length_app, <- app_assoc in IH. cbn in IH.
  by rewrite Nat.add_1_r in IH.
Qed.

Lemma map_lookup_all {A} (d : A) (a : list A) :
  map (λ i, default d (a !! i)) (seq 0 (List.length a)) = a.
Proof. exact (map_lookup_seq d [] a). Qed.

Lemma map_lookup_take {A} (d : A) (a : list A) n :
  (n ≤ List.length a)%nat →
  map (λ i, default d (a !! i)) (seq 0 n) = take n a.
Proof.
  intros Hn.
  pose proof (map_lookup_all d (take n a)) as Hm.
  rewrite length_take, Nat.min_l in Hm by done.
  etrans; [|exact Hm]. apply map_ext_in. intros i Hi.
  apply in_seq in Hi. by rewrite lookup_take_lt by lia.
Qed.

Lemma zip_take_l {A B} (fs : list A) (a : list B) :
  zip (take (List.length a) fs) a = zip fs a.
Proof.
  revert fs. induction a as [|v a IH]; intros [|f fs]; cbn; try done.
  by rewrite IH.
Qed.

Lemma zip_map {A B C} (f : A → B) (g : A → C) (l : list A) :
  zip (map f l) (map g l) = map (λ i, (f i, g i)) l.
Proof. induction l as [|i l IH]; cbn; [done|]. by rewrite IH. Qed.

Lemma StronglySorted_rev {A} (R : relation A) l :
  StronglySorted R l → StronglySorted (flip R) (rev l).
Proof.
  induction 1 as [|x l Hs IH Hx]; [constructor|]. cbn [rev].
  apply StronglySorted_app_2; [|done|by repeat constructor].
  intros y z Hy Hz. apply list_elem_of_singleton in Hz as ->.
  rewrite Forall_forall in Hx. apply Hx.
  by apply list_elem_of_In, in_rev, list_elem_of_In.
Qed.

Lemma StronglySorted_map {A B} (R1 : relation A) (R2 : relation B) (f : A → B) l :
  (∀ x y, R1 x y → R2 (f x) (f y)) →
  StronglySorted R1 l → StronglySorted R2 (map f l).
Proof.
  intros Hf. induction 1 as [|x l Hs IH Hx]; cbn; constructor; [done|].
  apply Forall_map. eapply Forall_impl; [exact Hx|]. intros y. apply Hf.
Qed.

Lemma take_at_valid {A} (d : A) (a : list A) idx :
  Forall (λ i, i < List.length a)%nat idx →
  take_at a idx = Ok (map (λ i, default d (a !! i)) idx).
Proof.
  unfold take_at. induction 1 as [|i idx Hi _ IH]; cbn [map result_all]; [done|].
  apply lookup_lt_is_Some in Hi as [v Hv]. rewrite Hv, IH. done.
Qed.

(** X10: the bars of the importance chart.  When the dict has a key
    Random Forest whose estimator gives its importances, no more of them
    than there are feature columns, cell 10 gets as far as the plot; the
    bar values are the importances in descending order, and each bar
    carries the label of the feature column at the position of its value:
    the pairs of label and value are the pairs of the feature columns and
    the importances, in another order. *)
Theorem importance_bars_sorted (models : list (string * E)) (X : DataFrame)
    rf_model importances :
  dict_item "Random Forest" models = Ok rf_model →
  feature_importances_ rf_model = Ok importances →
  (List.length importances ≤ List.length (labels X))%nat →
  ∃ x y,
    importance_bars models X = Ok (x, y) ∧
    StronglySorted (λ a b, (b ≤ a)%Qc) x ∧
    x ≡ₚ importances ∧
    zip y x ≡ₚ zip (labels X) importances.
Proof.
  intros Hrf Ha Hlen. unfold importance_bars.
  rewrite Hrf. cbn [result_bind]. rewrite Ha. cbn [result_bind]. cbv zeta.
  set (a := importances) in *. set (idx := rev (argsort a)).
  assert (Hperm : idx ≡ₚ seq 0 (List.length a)).
  { unfold idx, argsort. rewrite <- Permutation_rev.
    apply merge_sort_Permutation. }
  assert (Hvalid : Forall (λ i, i < List.length a)%nat idx).
  { apply Forall_forall. intros i Hi. rewrite Hperm in Hi.
    apply list_elem_of_In, in_seq in Hi. lia. }
  rewrite (take_at_valid 0%Qc a idx Hvalid). cbn [result_bind].
  rewrite (take_at_valid "" (labels X) idx)
    by (eapply Forall_impl; [exact Hvalid|]; intros i Hi; simpl in *; lia).
  cbn [result_bind]. eexists _, _. split; [done|]. split_and!.
  - apply (StronglySorted_map (flip (by_value a))); [done|].
    apply StronglySorted_rev, StronglySorted_merge_sort; apply _.
  - rewrite (Permutation_map _ Hperm). by rewrite map_lookup_all.
  - rewrite zip_map, (Permutation_map _ Hperm), <- zip_map.
    by rewrite map_lookup_all, map_lookup_take, zip_take_l.
Qed.

(** X11: the ways cell 10 fails before the plot: KeyError when the dict
    has no key Random Forest, the estimator's own exception when it gives
    no importances, IndexError when there are more importances than feature
    columns. *)
Theorem importance_bars_errors (models : list (string * E)) (X : DataFrame) :
  (dict_item "Random Forest" models = Raise (KeyError "Random Forest") ↔
   "Random Forest" ∉ map fst models) ∧
  ("Random Forest" ∉ map fst models →
   importance_bars models X = Raise (KeyError "Random Forest")) ∧
  (∀ rf_model e,
     dict_item "Random Forest" models = Ok rf_model →
     feature_importances_ rf_model = Raise e →
     importance_bars models X = Raise e) ∧
  (∀ rf_model importances,
     dict_item "Random Forest" models = Ok rf_model →
     feature_importances_ rf_model = Ok importances →
     (List.length (labels X) < List.length importances)%nat →
     importance_bars models X = Raise IndexError).
Proof.
  assert (Hkey : dict_item "Random Forest" models = Raise (KeyError "Random Forest") ↔
                 "Random Forest" ∉ map fst models).
  { unfold dict_item.
    destruct (find _ models) as [kv|] eqn:Hf.
    - split; [discriminate|]. intros Habs. exfalso. apply Habs.
      apply find_some in Hf as [Hin Heq].
      apply String.eqb_eq in Heq. rewrite <- Heq.
      apply list_elem_of_fmap. exists kv. split; [done|by apply list_elem_of_In].
    - split; [intros _|done]. intros Hin.
      apply list_elem_of_fmap in Hin as (kv & Hk & Hin).
      apply list_elem_of_In in Hin.
      pose proof (find_none _ _ Hf _ Hin) as Hno. simpl in Hno.
      rewrite <- Hk, String.eqb_refl in Hno. discriminate. }
  split_and!; [done|..].
  - intros Habs. unfold importance_bars. by rewrite (proj2 Hkey Habs).
  - intros rf e Hrf He. unfold importance_bars. by rewrite Hrf; cbn; rewrite He.
  - intros rf a Hrf Ha Hlen. unfold importance_bars.
    rewrite Hrf. cbn [result_bind]. rewrite Ha. cbn [result_bind]. cbv zeta.
    set (idx := rev (argsort a)).
    assert (Hperm : idx ≡ₚ seq 0 (List.length a)).
    { unfold idx, argsort. rewrite <- Permutation_rev.
      apply merge_sort_Permutation. }
    assert (Hvalid : Forall (λ i, i < List.length a)%nat idx).
    { apply Forall_forall. intros i Hi. rewrite Hperm in Hi.
      apply list_elem_of_In, in_seq in Hi. lia. }
    rewrite (take_at_valid 0%Qc a idx Hvalid). cbn [result_bind].
    assert (Hbad : List.length (labels X) ∈ idx).
    { rewrite Hperm. apply list_elem_of_In, in_seq. lia. }
    assert (Hraise : take_at (labels X) idx = Raise IndexError).
    { unfold take_at. clear -Hbad.
      induction idx as [|i idx IH]; [by apply elem_of_nil in Hbad|].
      cbn [map result_all].
      destruct (labels X !! i) as [v|] eqn:Hi; [|done]. cbn [result_bind].
      rewrite IH; [done|].
      apply elem_of_cons in Hbad as [Heq|?]; [|done].
      apply lookup_lt_Some in Hi. lia. }
    by rewrite Hraise.
Qed.

End Chart.

(** ** [preprocess_input] on the caller's own frame *)

Section InPlace.
Variable num_str : cell → string.
Local Open Scope list_scope.

(** X12: [preprocess_input] is not all-or-nothing.  Called on a frame that
    has the other raw columns but no [contract_type], it raises KeyError
    for [contract_type] after it has filled [internet_service] and added
    [avg_monthly_charge] on the caller's frame, and it leaves them there. *)
Theorem preprocess_input_partial_update (σ : heap) r df isv tc tn refs :
  σ !! r = Some df →
  get_col df "internet_service" = Some isv →
  get_col df "total_charges" = Some tc →
  get_col df "tenure" = Some tn →
  numeric tc = true → numeric tn = true →
  "contract_type" ∉ labels df →
  ∃ avg,
    series_truediv tc (replace zero NaN tn) = Ok avg ∧
    preprocess_input num_str r refs σ =
    (Raise (KeyError "contract_type"),
     <[r := set_col (set_col df "internet_service" (fillna (Str "unknown") isv))
                    "avg_monthly_charge" avg]> σ).
Proof.
  intros Hr His Htc Htn Hntc Hntn Hct.
  destruct (avg_column_numeric tc tn Hntc Hntn) as (avg & Havg & _).
  exists avg. split; [done|].
  unfold preprocess_input, fillna_inplace.
  rewrite !bind_run, (getitem_run _ _ _ _ Hr). unfold col at 1. rewrite His.
  rewrite (setitem_run _ _ _ _ _ Hr).
  set (df1 := set_col df _ _).
  assert (H1 : <[r := df1]> σ !! r = Some df1) by by eapply lookup_insert_same.
  rewrite !bind_run, (getitem_run _ _ _ _ H1). unfold col at 1.
  unfold df1 at 1. rewrite get_col_set_col_ne, Htc by discriminate.
  rewrite !bind_run, (getitem_run _ _ _ _ H1). unfold col at 1.
  unfold df1 at 1. rewrite get_col_set_col_ne, Htn by discriminate.
  rewrite !bind_run, lift_run, Havg.
  rewrite !bind_run, (setitem_run _ _ _ _ _ H1), list_insert_insert_eq.
  set (df2 := set_col df1 _ _).
  assert (H2 : <[r := df2]> σ !! r = Some df2) by by eapply lookup_insert_same.
  rewrite !bind_run, (getitem_run _ _ _ _ H2). unfold col.
  assert (Hnone : get_col df2 "contract_type" = None).
  { unfold df2, df1. rewrite !get_col_set_col_ne by discriminate.
    by apply get_col_None. }
  by rewrite Hnone.
Qed.

Lemma uniform_set_col df c s : uniform (set_col df c s) c s.
Proof.
  unfold uniform, set_col. destruct (has_column df c) eqn:Hc; cbn [columns].
  - apply Forall_map, Forall_forall. intros [k v] _. cbn.
    destruct (String.eqb_spec k c); cbn; [done|congruence].
  - apply has_column_false in Hc. apply Forall_app. split; [|by constructor].
    apply Forall_forall. intros [k v] Hin. cbn. intros ->.
    exfalso. apply Hc. apply list_elem_of_fmap. by exists (c, v).
Qed.

Lemma uniform_set_col_other df c s c' s' :
  c ≠ c' → uniform df c s → uniform (set_col df c' s') c s.
Proof.
  unfold uniform, set_col. intros Hne Hu.
  destruct (has_column df c'); cbn [columns].
  - apply Forall_map. eapply Forall_impl; [exact Hu|].
    intros [k v] Hkv. cbn in *.
    destruct (String.eqb_spec k c'); cbn; [congruence|done].
  - apply Forall_app. split; [done|]. constructor; [|done]. cbn. congruence.
Qed.

Lemma set_col_uniform df c s :
  has_column df c = true → uniform df c s → set_col df c s = df.
Proof.
  unfold uniform, set_col. intros -> Hu. destruct df as [n cols]. cbn in *.
  f_equal. induction Hu as [|[k v] cols Hkv _ IH]; [done|]. cbn in *.
  rewrite IH. destruct (String.eqb_spec k c) as [Hk|]; [|done].
  by rewrite (Hkv Hk).
Qed.

Lemma fillna_fillna v (s : Series) : v ≠ NaN → fillna v (fillna v s) = fillna v s.
Proof.
  intros Hv. unfold fillna. rewrite map_map. apply map_ext. intros c.
  destruct c; try done. by destruct v.
Qed.

(** The engineered frame is a fixed point of [engineer]. *)
Lemma engineer_engineered df isv tc tn ct avg :
  get_col df "internet_service" = Some isv →
  get_col df "total_charges" = Some tc →
  get_col df "tenure" = Some tn →
  get_col df "contract_type" = Some ct →
  series_truediv tc (replace zero NaN tn) = Ok avg →
  engineer (engineered df isv avg ct) = Ok (engineered df isv avg ct).
Proof.
  intros His Htc Htn Hct Havg.
  set (d3 := engineered df isv avg ct).
  assert (His3 : get_col d3 "internet_service" = Some (fillna (Str "unknown") isv)).
  { unfold d3, engineered. rewrite !get_col_set_col_ne by discriminate.
    apply get_col_set_col_eq. }
  rewrite (engineer_Ok d3 (fillna (Str "unknown") isv) tc tn ct avg); try done.
  2-4: unfold d3; by rewrite engineered_other by discriminate.
  rewrite fillna_fillna by done. f_equal.
  rewrite (set_col_uniform d3 "internet_service").
  2: by eapply get_col_has_column.
  2:{ unfold d3, engineered.
      do 2 (apply uniform_set_col_other; [discriminate|]).
      apply uniform_set_col. }
  rewrite (set_col_uniform d3 "avg_monthly_charge").
  2:{ eapply get_col_has_column. unfold d3. apply engineered_avg. }
  2:{ unfold d3, engineered.
      apply uniform_set_col_other; [discriminate|]. apply uniform_set_col. }
  apply set_col_uniform.
  - eapply get_col_has_column. unfold d3. apply engineered_short.
  - apply uniform_set_col.
Qed.

(** X13: calling [preprocess_input] a second time on the frame that a first
    call has changed returns a frame equal to the first one and leaves the
    caller's frame as the first call left it. *)
Theorem preprocess_input_again (σ : heap) r df isv tc tn ct refs :
  σ !! r = Some df → raw_columns df isv tc tn ct →
  let first := preprocess_input num_str r refs σ in
  let second := preprocess_input num_str r refs first.2 in
  ∃ a1 a2 out,
    first.1 = Ok a1 ∧ first.2 !! a1 = Some out ∧
    second.1 = Ok a2 ∧ second.2 !! a2 = Some out ∧
    second.2 !! r = first.2 !! r.
Proof.
  intros Hr Hraw first second.
  destruct (raw_columns_engineer _ _ _ _ _ Hraw) as (avg & He & _).
  pose proof Hraw as (His & Htc & Htn & Hct & Hntc & Hntn).
  assert (Havg : series_truediv tc (replace zero NaN tn) = Ok avg).
  { apply engineer_inv in He
      as (isv' & tc' & tn' & ct' & avg' & ? & ? & ? & ? & Havg & Heq).
    assert (tc' = tc) as -> by congruence.
    assert (tn' = tn) as -> by congruence.
    rewrite Havg. f_equal.
    pose proof (f_equal (λ d, get_col d "avg_monthly_charge") Heq) as Hcol.
    simpl in Hcol. rewrite !engineered_avg in Hcol. congruence. }
  set (d3 := engineered df isv avg ct) in *.
  destruct (preprocess_input_Ok num_str σ r df d3 refs Hr He)
    as (filled & out & Hal & Hrun).
  assert (Hr1 : first.2 !! r = Some d3).
  { unfold first. rewrite Hrun. cbn [snd].
    rewrite lookup_app_l by (rewrite length_insert; by eapply lookup_lt_Some).
    by eapply lookup_insert_same. }
  assert (He3 : engineer d3 = Ok d3) by by eapply engineer_engineered.
  destruct (preprocess_input_Ok num_str first.2 r d3 d3 refs Hr1 He3)
    as (filled' & out' & Hal' & Hrun').
  assert (out' = out) as ->.
  { unfold aligned in Hal, Hal'. rewrite He in Hal. rewrite He3 in Hal'.
    congruence. }
  exists (S (List.length σ)), (S (List.length first.2)), out.
  unfold second. rewrite Hrun'. unfold first at 1 2. rewrite Hrun. cbn [fst snd].
  split_and!; [done|apply lookup_returned|done|apply lookup_returned|].
  rewrite lookup_app_l by (rewrite length_insert; by eapply lookup_lt_Some).
  rewrite Hr1. by eapply lookup_insert_same.
Qed.

End InPlace.

(** ** The columns that cell 4 leaves *)

Section TrainingFrame.
Variable num_str : cell → string.
Local Open Scope list_scope.

Lemma dict_map_other (name : string) (s : Series) (cols : list (string * Series)) :
  name ∉ map fst cols →
  map (λ kv, if String.eqb (fst kv) name then (fst kv, s) else kv) cols = cols.
Proof.
  induction cols as [|[k v] cols IH]; [done|]. cbn. intros Hn.
  apply not_elem_of_cons in Hn as [Hne Hn].
  destruct (String.eqb_spec k name); [congruence|]. by rewrite IH.
Qed.

(** X14: the frame that cell 4 leaves in [df], for a table with distinct
    labels.  Its columns are, in this order: the columns of the engineered
    table other than [contract_type] and [internet_service], with the same
    labels ([churn] now holding the codes); the indicator columns of
    [contract_type]; the indicator columns of [internet_service] as filled,
    so that a missing service counts as the category unknown. *)
Theorem cell4_columns (σ : heap) r df isv tc tn ct churn :
  σ !! r = Some df → raw_columns df isv tc tn ct →
  get_col df "churn" = Some churn → NoDup (labels df) →
  ∃ r' σ' df' df3 front,
    load_and_preprocess num_str r σ = (Ok r', σ') ∧ σ' !! r' = Some df' ∧
    engineer df = Ok df3 ∧
    columns df' =
      front ++
      get_dummies_1d num_str "contract_type" ct ++
      get_dummies_1d num_str "internet_service" (fillna (Str "unknown") isv) ∧
    map fst front = filter (λ c, c ∉ encoded) (labels df3) ∧
    nrows df' = nrows df.
Proof.
  intros Hr Hraw Hch Hnd.
  destruct (raw_columns_engineer _ _ _ _ _ Hraw) as (avg & He & _).
  destruct Hraw as (His & Htc & Htn & Hct & _).
  set (df3 := engineered df isv avg ct) in *.
  destruct (load_and_preprocess_Ok num_str σ r df df3 churn Hr He Hch)
    as (df4 & Hgd & Hrun).
  assert (Hnd3 : NoDup (labels df3)).
  { unfold df3, engineered. by do 3 apply NoDup_labels_set_col. }
  assert (Hct3 : get_col df3 "contract_type" = Some ct).
  { unfold df3. by rewrite engineered_other by discriminate. }
  assert (His3 : get_col df3 "internet_service" = Some (fillna (Str "unknown") isv)).
  { unfold df3, engineered. rewrite !get_col_set_col_ne by discriminate.
    apply get_col_set_col_eq. }
  rewrite get_dummies_Ok in Hgd
    by (apply get_col_is_Some; by rewrite ?Hct3, ?His3).
  rewrite (filter_label_NoDup _ _ _ Hnd3 Hct3),
          (filter_label_NoDup _ _ _ Hnd3 His3) in Hgd.
  cbn [app flat_map fst snd] in Hgd. rewrite app_nil_r in Hgd.
  injection Hgd as <-.
  set (D := get_dummies_1d num_str "contract_type" ct ++
            get_dummies_1d num_str "internet_service" (fillna (Str "unknown") isv)) in *.
  set (front0 := filter (λ kv, fst kv ∉ encoded) (columns df3)) in *.
  assert (Hfront0 : map fst front0 = filter (λ c, c ∉ encoded) (labels df3))
    by apply labels_filter_notin.
  assert (Hch0 : "churn" ∈ map fst front0).
  { rewrite Hfront0. apply list_elem_of_filter.
    split; [rewrite elem_of_encoded; intros [?|?]; discriminate|].
    apply engineered_labels, get_col_is_Some. by rewrite Hch. }
  assert (HchD : "churn" ∉ map fst D).
  { unfold D. rewrite map_app, elem_of_app. intros [Hin|Hin].
    - apply (dummy_label_not_raw num_str "contract_type" ct) in Hin; [|auto].
      apply Hin. rewrite !elem_of_cons. auto.
    - apply (dummy_label_not_raw num_str "internet_service"
               (fillna (Str "unknown") isv)) in Hin; [|auto].
      apply Hin. rewrite !elem_of_cons. auto. }
  set (codes := series_map churn_codes churn) in *.
  eexists (List.length σ), _, _, df3,
    (map (λ kv, if String.eqb (fst kv) "churn" then (fst kv, codes) else kv) front0).
  split; [exact Hrun|]. split; [apply lookup_trained|]. split; [done|].
  split_and!.
  - unfold set_col.
    rewrite (proj2 (has_column_true _ "churn")).
    2:{ unfold labels. cbn [columns]. rewrite map_app, elem_of_app. by left. }
    cbn [columns]. rewrite map_app. f_equal.
    apply (dict_map_other "churn" codes D HchD).
  - rewrite map_map, <- Hfront0. apply map_ext. intros [k v]. cbn.
    by destruct (String.eqb k "churn").
  - by rewrite nrows_set_col; cbn; unfold df3; rewrite nrows_engineered.
Qed.

End TrainingFrame.

(** ** The further properties on the example data *)

(** The indicators of the filled [internet_service] column of [survey], read
    at the row of the dropped level [dsl]. *)
Lemma indicators_decode_survey :
  (∀ kv, kv ∈ get_dummies_1d whole_str "internet_service"
                [Str "fiber optic"; Str "dsl"; Str "unknown"] →
         kv.2 !! 1%nat = Some zero) ↔
  Str "dsl" = NaN ∨
  head (levels_of [Str "fiber optic"; Str "dsl"; Str "unknown"]) = Some (Str "dsl").
Proof.
  pose proof (indicators_decode whole_str "internet_service"
    [Str "fiber optic"; Str "dsl"; Str "unknown"] 1 (Str "dsl") eq_refl) as Hdec.
  cbv zeta in Hdec. exact (proj1 (proj2 (proj2 Hdec))).
Defined.

(** [dsl] is dropped and is below [unknown]. *)
Lemma dropped_level_is_least_survey :
  level_leb (Str "dsl") (Str "unknown") = true ∧ Str "dsl" ≠ Str "unknown".
Proof.
  apply (dropped_level_is_least [Str "fiber optic"; Str "dsl"; Str "unknown"]).
  - reflexivity.
  - by_evaluation.
Defined.

(** Cell 6 on the raw table [survey]. *)
Lemma feature_matrix_spec_survey :
  ∃ dfX, (feature_matrix 0 [survey]).2 !! 1%nat = Some dfX ∧
    labels dfX = ["tenure"; "total_charges"; "contract_type"; "internet_service"] ∧
    nrows dfX = 3%nat.
Proof.
  pose proof (feature_matrix_spec [survey] 0 survey eq_refl) as Hspec.
  assert ((feature_matrix 0 [survey]).1 = Ok 1%nat) as Hrun by reflexivity.
  rewrite Hrun in Hspec.
  destruct Hspec as (_ & _ & dfX & Hx & Hl & Hn & _).
  exists dfX. split; [exact Hx|]. split; [|exact Hn].
  rewrite Hl. reflexivity.
Defined.

(** [list(X.columns)] of [survey] is [reference_columns]. *)
Lemma reference_columns_schema_survey :
  (schema_of whole_str 0 [survey]).1 =
  Ok (filter (λ c, c ∉ ["customer_id"; "churn"; "contract_type"; "internet_service"])
        (labels survey) ++
      ["avg_monthly_charge"; "is_short_contract"] ++
      map fst (get_dummies_1d whole_str "contract_type"
                 [Str "month-to-month"; Str "one-year"; Str "two-year"]) ++
      map fst (get_dummies_1d whole_str "internet_service"
                 (fillna (Str "unknown") [Str "fiber optic"; Str "dsl"; NaN])))%list.
Proof.
  apply (reference_columns_schema whole_str [survey] 0 survey
           [Str "fiber optic"; Str "dsl"; NaN]
           [int 250; int 1200; int 0] [int 5; int 24; int 0]
           [Str "month-to-month"; Str "one-year"; Str "two-year"]
           [Str "Yes"; Str "No"; Str "no"]).
  - reflexivity.
  - repeat split; reflexivity.
  - reflexivity.
  - by_evaluation.
  - by_evaluation.
  - by_evaluation.
  - by_evaluation.
Defined.

(** [brand_new] with a one-year contract on fiber gets the row of
    [brand_new]. *)
Lemma aligned_row_ignores_categories_brand_new :
  (aligned_row whole_str 0 reference_columns [brand_new_other]).1 =
  (aligned_row whole_str 0 reference_columns [brand_new]).1.
Proof.
  apply (aligned_row_ignores_categories whole_str [brand_new] [brand_new_other]
           0 0 brand_new [NaN] [int 70] [int 0] [Str "two-year"]
           [Str "fiber optic"] [Str "one-year"] reference_columns).
  - reflexivity.
  - repeat split; reflexivity.
  - by_evaluation.
  - reflexivity.
  - reflexivity.
  - reflexivity.
  - reflexivity.
  - reflexivity.
Defined.

(** A fitted stand-in that answers 0.734 reports 73.40% for [new_client]. *)
Lemma predict_reports_first_row_new_client :
  (predict_churn_for_client whole_str (Fitted (Q2Qc (734 # 1000))) 0
     reference_columns [new_client]).1 =
  Ok ("Customer Churn Probability: " ++ format_percent (Q2Qc (734 # 1000)))%string.
Proof.
  pose proof (predict_reports_first_row whole_str (Fitted (Q2Qc (734 # 1000)))
    [new_client] 0 new_client reference_columns new_client_row
    [[(1 - Q2Qc (734 # 1000))%Qc; Q2Qc (734 # 1000)]]
    eq_refl) as Hreport.
  cbv zeta in Hreport.
  refine (proj1 (Hreport _ _) _ [] _ eq_refl _ eq_refl).
  - by_evaluation.
  - reflexivity.
  - repeat constructor. by eexists.
Defined.

(** 0.734 is printed from the whole number 7340. *)
Lemma format_percent_probability_new_client :
  ∃ n : Z,
    (0 ≤ n ≤ 10000)%Z ∧
    (Qabs (inject_Z n - 10000 * this (Q2Qc (734 # 1000))) <=
       (1 # 2) + 100 * 2 ^ (-47))%Q ∧
    format_percent (Q2Qc (734 # 1000)) =
      (decimal (n / 100) ++ "." ++
       (if (n mod 100 <? 10)%Z then "0" else "") ++ decimal (n mod 100) ++ "%")%string.
Proof.
  apply (format_percent_probability (Q2Qc (734 # 1000))); by_evaluation.
Defined.

(** The loop on three stand-ins that can be fitted. *)
Lemma loop_fits_every_model_toy :
  Forall2 (fitted_from toy_data) (models toy_session_ok)
          (models (train_and_evaluate toy_data toy_session_ok).2).
Proof.
  apply loop_fits_every_model.
  - by_evaluation.
  - assert ((train_and_evaluate toy_data toy_session_ok).1 = Ok tt) as Hrun
      by reflexivity.
    destruct (train_and_evaluate toy_data toy_session_ok) as [res st'].
    simpl in Hrun. rewrite Hrun. reflexivity.
Defined.

(** The chart for a fitted stand-in on the row of [new_client]. *)
Lemma importance_bars_sorted_toy :
  ∃ x y,
    importance_bars [("Random Forest", Fitted (Q2Qc (1 # 4)))] new_client_row =
      Ok (x, y) ∧
    StronglySorted (λ a b, (b ≤ a)%Qc) x ∧
    x ≡ₚ [Q2Qc (1 # 4); (1 - Q2Qc (1 # 4))%Qc] ∧
    zip y x ≡ₚ zip (labels new_client_row) [Q2Qc (1 # 4); (1 - Q2Qc (1 # 4))%Qc].
Proof.
  apply (importance_bars_sorted [("Random Forest", Fitted (Q2Qc (1 # 4)))]
           new_client_row (Fitted (Q2Qc (1 # 4)))).
  - reflexivity.
  - reflexivity.
  - simpl. lia.
Defined.

(** Without a random forest in the dict the chart raises KeyError. *)
Lemma importance_bars_errors_toy :
  importance_bars [("Gradient Boosting", Fitted (Q2Qc (1 # 4)))] new_client_row =
  Raise (KeyError "Random Forest").
Proof.
  apply (proj1 (proj2 (importance_bars_errors
           [("Gradient Boosting", Fitted (Q2Qc (1 # 4)))] new_client_row))).
  by_evaluation.
Defined.

(** [no_contract] comes back with its service filled and an average added. *)
Lemma preprocess_input_partial_update_no_contract :
  ∃ avg,
    series_truediv [int 250] (replace zero NaN [int 5]) = Ok avg ∧
    preprocess_input whole_str 0 reference_columns [no_contract] =
    (Raise (KeyError "contract_type"),
     <[0%nat := set_col (set_col no_contract "internet_service"
                           (fillna (Str "unknown") [Str "dsl"]))
                        "avg_monthly_charge" avg]> [no_contract]).
Proof.
  apply (preprocess_input_partial_update whole_str [no_contract] 0 no_contract
           [Str "dsl"] [int 250] [int 5] reference_columns).
  - reflexivity.
  - reflexivity.
  - reflexivity.
  - reflexivity.
  - reflexivity.
  - reflexivity.
  - by_evaluation.
Defined.

(** [new_client] preprocessed twice. *)
Lemma preprocess_input_again_new_client :
  ∃ a1 a2 out,
    (preprocess_input whole_str 0 reference_columns [new_client]).1 = Ok a1 ∧
    (preprocess_input whole_str 0 reference_columns [new_client]).2 !! a1 = Some out ∧
    (preprocess_input whole_str 0 reference_columns
       (preprocess_input whole_str 0 reference_columns [new_client]).2).1 = Ok a2 ∧
    (preprocess_input whole_str 0 reference_columns
       (preprocess_input whole_str 0 reference_columns [new_client]).2).2 !! a2 =
      Some out ∧
    (preprocess_input whole_str 0 reference_columns
       (preprocess_input whole_str 0 reference_columns [new_client]).2).2 !! 0%nat =
    (preprocess_input whole_str 0 reference_columns [new_client]).2 !! 0%nat.
Proof.
  apply (preprocess_input_again whole_str [new_client] 0 new_client
           [Str "fiber optic"] [int 250] [int 5] [Str "month-to-month"]
           reference_columns).
  - reflexivity.
  - repeat split; reflexivity.
Defined.

(** Cell 4 on [survey]. *)
Lemma cell4_columns_survey :
  ∃ r' σ' df' df3 front,
    load_and_preprocess whole_str 0 [survey] = (Ok r', σ') ∧ σ' !! r' = Some df' ∧
    engineer survey = Ok df3 ∧
    columns df' =
      (front ++
       get_dummies_1d whole_str "contract_type"
         [Str "month-to-month"; Str "one-year"; Str "two-year"] ++
       get_dummies_1d whole_str "internet_service"
         (fillna (Str "unknown") [Str "fiber optic"; Str "dsl"; NaN]))%list ∧
    map fst front = filter (λ c, c ∉ encoded) (labels df3) ∧
    nrows df' = nrows survey.
Proof.
  apply (cell4_columns whole_str [survey] 0 survey
           [Str "fiber optic"; Str "dsl"; NaN]
           [int 250; int 1200; int 0] [int 5; int 24; int 0]
           [Str "month-to-month"; Str "one-year"; Str "two-year"]
           [Str "Yes"; Str "No"; Str "no"]).
  - reflexivity.
  - repeat split; reflexivity.
  - reflexivity.
  - by_evaluation.
Defined.
